(** * udiskie.udisks1: the device cache and the event translation of the daemon

    A shallow embedding of [udiskie/udisks1.py]: the online devices that read
    their properties from the UDisks service, the cached devices built from
    them, and the [Daemon] that keeps the cache and turns the signals of the
    service into events. *)

From Stdlib Require Import QArith.
From stdpp Require Import base option list gmap strings.

Local Open Scope string_scope.
Local Open Scope list_scope.

(** ** Exceptions and results *)

(** The exceptions the module can meet.  [DBusException] is [device.Exception];
    [SystemError] stands for the dereference of an object that was never
    allocated, which no run of the program performs (see [daemon_wf]). *)
Inductive exn :=
  | DBusException | AttributeError | KeyError | TypeError
  | RecursionError | SystemError.

Inductive result (A : Type) :=
  | Ok (a : A)
  | Raise (e : exn).
Arguments Ok {A} a.
Arguments Raise {A} e.

#[global] Instance result_ret : MRet result := fun A a => Ok a.
#[global] Instance result_bind : MBind result := fun A B f r =>
  match r with Ok a => f a | Raise e => Raise e end.
#[global] Instance result_fmap : FMap result := fun A B f r =>
  match r with Ok a => Ok (f a) | Raise e => Raise e end.

(** [try: r except DBusException: d] *)
Definition except_dbus {A} (r : result A) (d : A) : result A :=
  match r with
  | Raise DBusException => Ok d
  | _ => r
  end.

(** ** Values *)

(** The one [Sniffer] object a daemon owns: a handle on the live service. *)
Inductive Sniffer := TheSniffer.

(** An [OnlineDevice] holds no state of its own: the service wrapper that
    made it and the object path of its proxy. *)
Record OnlineDevice := { udisks : Sniffer; object_path : string }.

(** The values a device attribute can hold. *)
Inductive pyval :=
  | PyNone
  | PyBool (b : bool)
  | PyStr (s : string)
  | PyList (l : list string)
  | PyOnline (d : OnlineDevice).

(** ** The live service *)

(** Modelled from the spec: [udiskie.dbus.DBusProxy] and [DBusService] are
    not among the sources.  The live source enumerates device identifiers and
    fetches the raw property bag of an identifier; the fetch raises when the
    identifier denotes no current live object.  The fields are the UDisks
    properties the module reads through [self.property]. *)
Record DeviceProps := {
  DeviceFile : string;
  DeviceFilePresentation : string;
  DeviceIsDrive : bool;
  DeviceIsPartitionTable : bool;
  DeviceIsPartition : bool;
  DeviceIsLuks : bool;
  DeviceIsLuksCleartext : bool;
  DeviceIsSystemInternal : bool;
  DeviceIsMediaAvailable : bool;
  DeviceIsMounted : bool;
  DeviceMountPaths : list string;
  DevicePresentationHide : bool;
  DriveCanDetach : bool;
  DriveIsMediaEjectable : bool;
  IdUsage : string;
  IdType : string;
  IdLabel : string;
  IdUuid : string;
  LuksCleartextSlave : string;
  LuksHolder : string;
  PartitionSlave : string;
}.

Record LiveSource := {
  EnumerateDevices : list string;
  objects : gmap string DeviceProps;
}.

Section Online.

(** [os.path.normpath] *)
Variable normpath : string → string.
(** The state of the service while one callback runs. *)
Variable live : LiveSource.

(** [self.property.X] *)
Definition property {A} (self : OnlineDevice) (X : DeviceProps → A) : result A :=
  match objects live !! object_path self with
  | Some bag => Ok (X bag)
  | None => Raise DBusException
  end.

(** [Sniffer.get], also [Sniffer.__getitem__] and [Sniffer.update] *)
Definition Sniffer_get (self : Sniffer) (object_path : string) : OnlineDevice :=
  {| udisks := self; object_path := object_path |}.

(** Modelled from the spec: the bus behind [get_object] is not among the
    sources.  A device identifier is a string; a key that is not one names
    no object and is refused.  This is [self.udisks[key]] for a key read
    from an attribute. *)
Definition Sniffer_getitem (self : Sniffer) (key : pyval) : result pyval :=
  match key with
  | PyStr object_path => Ok (PyOnline (Sniffer_get self object_path))
  | _ => Raise TypeError
  end.

Definition Sniffer_paths (self : Sniffer) : list string := EnumerateDevices live.

Definition is_valid (self : OnlineDevice) : bool :=
  match property self DeviceFile with
  | Ok _ => true
  | Raise _ => false
  end.

(** [UDisks.__iter__] on the sniffer *)
Definition Sniffer_iter (self : Sniffer) : list OnlineDevice :=
  filter (λ d, is_valid d = true) (Sniffer_get self <$> Sniffer_paths self).

Definition is_drive self := property self DeviceIsDrive.
Definition is_block (self : OnlineDevice) : result bool := Ok true.
Definition is_partition_table self := property self DeviceIsPartitionTable.
Definition is_partition self := property self DeviceIsPartition.
Definition id_usage self := property self IdUsage.
Definition is_filesystem self : result bool :=
  u ← id_usage self; mret (bool_decide (u = "filesystem")).
Definition is_luks self := property self DeviceIsLuks.
Definition is_toplevel := is_drive.

Definition is_detachable self : result (option bool) :=
  d ← is_drive self;
  if d : bool then Some <$> property self DriveCanDetach else mret None.
Definition is_ejectable self : result (option bool) :=
  d ← is_drive self;
  if d : bool then Some <$> property self DriveIsMediaEjectable else mret None.
Definition has_media self := property self DeviceIsMediaAvailable.

Definition device_file self := normpath <$> property self DeviceFile.
Definition device_presentation self := property self DeviceFilePresentation.
Definition is_crypto self : result bool :=
  u ← id_usage self; mret (bool_decide (u = "crypto")).
Definition is_ignored self := property self DevicePresentationHide.
Definition id_type self := property self IdType.
Definition id_label self := property self IdLabel.
Definition id_uuid self := property self IdUuid.
Definition is_luks_cleartext self := property self DeviceIsLuksCleartext.

Definition luks_cleartext_slave self : result (option OnlineDevice) :=
  c ← is_luks_cleartext self;
  if c : bool
  then p ← property self LuksCleartextSlave; mret (Some (Sniffer_get (udisks self) p))
  else mret None.

Definition is_systeminternal self := property self DeviceIsSystemInternal.
Definition is_external self := negb <$> is_systeminternal self.

Definition partition_slave self : result (option OnlineDevice) :=
  p ← is_partition self;
  if p : bool
  then s ← property self PartitionSlave; mret (Some (Sniffer_get (udisks self) s))
  else mret None.

(** [drive] calls itself on the container of the device.  [fuel] bounds the
    depth of the calls; running out of it is Python's [RecursionError]. *)
Fixpoint drive_rec (fuel : nat) (self : OnlineDevice) : result OnlineDevice :=
  match fuel with
  | O => Raise RecursionError
  | S fuel =>
      p ← is_partition self;
      if p : bool then
        slave ← partition_slave self;
        match slave with
        | Some s => drive_rec fuel s
        | None => Raise AttributeError
        end
      else
        c ← is_luks_cleartext self;
        if c : bool then
          slave ← luks_cleartext_slave self;
          match slave with
          | Some s => drive_rec fuel s
          | None => Raise AttributeError
          end
        else mret self
  end.

(** A call on an object without a bag raises at once, so a chain of calls
    that does not come back to a device it has visited is no longer than
    the number of live objects plus one. *)
Definition recursion_limit : nat := S (size (objects live)).

Definition drive self := drive_rec recursion_limit self.
Definition root := drive.

Definition is_mounted self := property self DeviceIsMounted.

Definition mount_paths self : result (list string) :=
  m ← is_mounted self;
  if m : bool
  then raw_paths ← property self DeviceMountPaths; mret (normpath <$> raw_paths)
  else mret [].

Definition luks_cleartext_holder self : result (option OnlineDevice) :=
  l ← is_luks self;
  if l : bool
  then h ← property self LuksHolder; mret (Some (Sniffer_get (udisks self) h))
  else mret None.

Definition is_unlocked self : result (option OnlineDevice) :=
  l ← is_luks self;
  if l : bool then luks_cleartext_holder self else mret None.

(** [other == self] where [other] is a device or [None]: [DeviceBase.__eq__]
    compares the object path with [str(other)], and [None == self] falls
    back on [self.__eq__(None)]. *)
Definition device_eq (other : option OnlineDevice) (self : OnlineDevice) : bool :=
  match other with
  | Some d => bool_decide (object_path d = object_path self)
  | None => bool_decide (object_path self = "None")
  end.

(** Truth value of a device or [None]: [DeviceBase.__bool__]. *)
Definition online_bool (d : option OnlineDevice) : bool :=
  match d with
  | Some d => is_valid d
  | None => false
  end.

Fixpoint in_use_rec (fuel : nat) (self : OnlineDevice) : result bool :=
  match fuel with
  | O => Raise RecursionError
  | S fuel =>
      m ← is_mounted self;
      u ← (if m : bool then mret true else online_bool <$> is_unlocked self);
      if u : bool then mret true else
      t ← is_partition_table self;
      if t : bool then
        (fix scan (devices : list OnlineDevice) : result bool :=
           match devices with
           | [] => mret false
           | device :: devices =>
               s ← partition_slave device;
               if device_eq s self then
                 b ← in_use_rec fuel device;
                 if b : bool then mret true else scan devices
               else scan devices
           end) (Sniffer_iter (udisks self))
      else mret false
  end.

Definition in_use self := in_use_rec recursion_limit self.

End Online.

(** ** Cached devices *)

(** A [CachedDevice] object: the online device it was made from, the service
    wrapper of that device, and the attributes set on the instance. *)
Record CachedDevice := {
  _device : OnlineDevice;
  _daemon : Sniffer;
  instance_dict : gmap string pyval;
}.

Definition of_bool (r : result bool) : result pyval := PyBool <$> r.
Definition of_str (r : result string) : result pyval := PyStr <$> r.
Definition of_opt_bool (r : result (option bool)) : result pyval :=
  from_option PyBool PyNone <$> r.
Definition of_opt_device (r : result (option OnlineDevice)) : result pyval :=
  from_option PyOnline PyNone <$> r.

(** The attributes that [CachedDevice] overloads with [_CachedDeviceProperty]. *)
Definition cached_device_properties : list string :=
  ["luks_cleartext_slave"; "drive"; "partition_slave"; "luks_cleartext_holder"].

Section Cached.

Variable normpath : string → string.
Variable live : LiveSource.

(** [getmembers(device.__class__, isproperty)]: the properties of
    [OnlineDevice], by name. *)
Definition OnlineDevice_properties : list (string * (OnlineDevice → result pyval)) :=
  [ ("device_file", λ self, of_str (device_file normpath live self));
    ("device_presentation", λ self, of_str (device_presentation live self));
    ("drive", λ self, PyOnline <$> drive live self);
    ("has_media", λ self, of_bool (has_media live self));
    ("id_label", λ self, of_str (id_label live self));
    ("id_type", λ self, of_str (id_type live self));
    ("id_usage", λ self, of_str (id_usage live self));
    ("id_uuid", λ self, of_str (id_uuid live self));
    ("in_use", λ self, of_bool (in_use live self));
    ("is_block", λ self, of_bool (is_block self));
    ("is_crypto", λ self, of_bool (is_crypto live self));
    ("is_detachable", λ self, of_opt_bool (is_detachable live self));
    ("is_drive", λ self, of_bool (is_drive live self));
    ("is_ejectable", λ self, of_opt_bool (is_ejectable live self));
    ("is_external", λ self, of_bool (is_external live self));
    ("is_filesystem", λ self, of_bool (is_filesystem live self));
    ("is_ignored", λ self, of_bool (is_ignored live self));
    ("is_luks", λ self, of_bool (is_luks live self));
    ("is_luks_cleartext", λ self, of_bool (is_luks_cleartext live self));
    ("is_mounted", λ self, of_bool (is_mounted live self));
    ("is_partition", λ self, of_bool (is_partition live self));
    ("is_partition_table", λ self, of_bool (is_partition_table live self));
    ("is_systeminternal", λ self, of_bool (is_systeminternal live self));
    ("is_toplevel", λ self, of_bool (is_toplevel live self));
    ("is_unlocked", λ self, of_opt_device (is_unlocked live self));
    ("is_valid", λ self, Ok (PyBool (is_valid live self)));
    ("luks_cleartext_holder", λ self, of_opt_device (luks_cleartext_holder live self));
    ("luks_cleartext_slave", λ self, of_opt_device (luks_cleartext_slave live self));
    ("mount_paths", λ self, PyList <$> mount_paths normpath live self);
    ("partition_slave", λ self, of_opt_device (partition_slave live self));
    ("root", λ self, PyOnline <$> root live self) ].

(** Looks a key up in an association list, as [getattr] does in a class. *)
Fixpoint assoc {A} (key : string) (l : list (string * A)) : option A :=
  match l with
  | [] => None
  | (k, a) :: l => if decide (k = key) then Some a else assoc key l
  end.

(** [getattr(device, key)] on an online device.  [object_path] is the
    attribute of the proxy; the methods of the device are not values here. *)
Definition OnlineDevice_getattr (self : OnlineDevice) (key : string) : result pyval :=
  match assoc key OnlineDevice_properties with
  | Some prop => prop self
  | None =>
      if decide (key = "object_path") then Ok (PyStr (object_path self))
      else Raise AttributeError
  end.

(** [getattr(device, 'object_path', None)] *)
Definition object_path_or_none (device : pyval) : pyval :=
  match device with
  | PyOnline d => PyStr (object_path d)
  | _ => PyNone
  end.

Definition store (key : string) (v : pyval) (self : CachedDevice) : CachedDevice :=
  {| _device := _device self; _daemon := _daemon self;
     instance_dict := <[key := v]> (instance_dict self) |}.

(** [setattr(self, key, v)]: the setter of [_CachedDeviceProperty] keeps the
    object path of the device under ['_' + key]; any other key is an
    attribute of the instance. *)
Definition CachedDevice_setattr (self : CachedDevice) (key : string) (v : pyval)
    : CachedDevice :=
  if decide (key ∈ cached_device_properties)
  then store ("_" +:+ key) (object_path_or_none v) self
  else store key v self.

(** The loop of [CachedDevice.__init__]: a property that raises the
    exception of the device is cached as [None]. *)
Fixpoint cache_properties (device : OnlineDevice)
    (members : list (string * (OnlineDevice → result pyval)))
    (self : CachedDevice) : result CachedDevice :=
  match members with
  | [] => Ok self
  | (key, prop) :: members =>
      v ← except_dbus (prop device) PyNone;
      cache_properties device members (CachedDevice_setattr self key v)
  end.

(** [CachedDevice.__init__] *)
Definition CachedDevice_init (device : OnlineDevice) : result CachedDevice :=
  self ← cache_properties device OnlineDevice_properties
         {| _device := device; _daemon := udisks device; instance_dict := ∅ |};
  mret (store "is_valid" (PyBool (is_valid live device)) self).

(** Attribute access on a cached device: the overloaded properties first
    (they look the kept object path up in [_daemon]), then the attributes of
    the instance, then [__getattr__], which asks the online device. *)
Definition CachedDevice_getattr (self : CachedDevice) (key : string) : result pyval :=
  if decide (key ∈ cached_device_properties) then
    Sniffer_getitem (_daemon self) (default PyNone (instance_dict self !! ("_" +:+ key)))
  else
    match instance_dict self !! key with
    | Some v => Ok v
    | None => OnlineDevice_getattr (_device self) key
    end.

(** [hasattr(obj, name)], given what [getattr(obj, name)] does: on Python 3,
    for which the module provides [__bool__], only [AttributeError] means
    that the attribute is missing; any other exception reaches the caller. *)
Definition hasattr (r : result pyval) : result bool :=
  match r with
  | Ok _ => Ok true
  | Raise AttributeError => Ok false
  | Raise e => Raise e
  end.

(** [sys.getrecursionlimit()]; the module does not set it. *)
Definition getrecursionlimit : nat := 1000.

(** Attribute access on an instance of [CachedDevice] on which [__init__]
    has not run, so that nothing is set on it: a [key] that is no name of
    the class is resolved by [__getattr__], whose [self._device] is such a
    key again.  [depth] is the number of calls the interpreter still
    allows. *)
Fixpoint blank_getattr (depth : nat) (key : string) : result pyval :=
  match depth with
  | O => Raise RecursionError
  | S depth =>
      device ← blank_getattr depth "_device";
      match device with
      | PyOnline d => OnlineDevice_getattr d key
      | _ => Raise AttributeError
      end
  end.

(** [copy(x)] of the standard library on a cached device, a class without
    [__copy__]: the state of [x] is its attributes; [_reconstruct] makes an
    instance of the class without [__init__], asks it for [__setstate__]
    with [hasattr] and, when there is none, gives it the attributes of
    [x].  A value of an online device is nothing to call. *)
Definition copy (x : CachedDevice) : result CachedDevice :=
  has ← hasattr (blank_getattr getrecursionlimit "__setstate__");
  if has : bool then Raise TypeError else Ok x.

(** [DeviceBase.__bool__] on a cached device; Python accepts only a boolean
    from it. *)
Definition CachedDevice_bool (self : CachedDevice) : result bool :=
  v ← CachedDevice_getattr self "is_valid";
  match v with
  | PyBool b => Ok b
  | _ => Raise TypeError
  end.

(** Truth value of an attribute. *)
Definition truthy (v : pyval) : bool :=
  match v with
  | PyNone => false
  | PyBool b => b
  | PyStr s => negb (bool_decide (s = ""))
  | PyList l => negb (bool_decide (l = []))
  | PyOnline d => is_valid live d
  end.

(** A device as the daemon hands it out: [None] or a cached device. *)
Definition dev_getattr (dev : option CachedDevice) (key : string) : result pyval :=
  match dev with
  | Some c => CachedDevice_getattr c key
  | None => Raise AttributeError
  end.

(** [not dev] *)
Definition dev_not (dev : option CachedDevice) : result bool :=
  match dev with
  | Some c => negb <$> CachedDevice_bool c
  | None => Ok true
  end.

End Cached.

Arguments copy : simpl never.

(** ** The daemon *)

(** [Job(job_id, percentage)] *)
Record Job := { job_id : string; percentage : Q }.

(** A cached device is an object of the heap; the daemon and the handlers of
    its events hold references to it. *)
Abbreviation ref := nat (only parsing).

(** The arguments of an event: a device ([None] or a cached device), a
    string, or the percentage of a job. *)
Inductive arg :=
  | ADev (dev : option ref)
  | AStr (s : string)
  | APercentage (q : Q).

Record Event := { event_name : string; payload : list arg }.

Record Daemon := {
  _sniffer : Sniffer;
  _jobs : gmap string Job;
  _devices : gmap string ref;
  _errors : gmap string (gmap string string);
  heap : list CachedDevice;
  published : list Event;
}.

Definition set_jobs (f : gmap string Job → gmap string Job) (self : Daemon) : Daemon :=
  {| _sniffer := _sniffer self; _jobs := f (_jobs self); _devices := _devices self;
     _errors := _errors self; heap := heap self; published := published self |}.
Definition set_devices (f : gmap string ref → gmap string ref) (self : Daemon) : Daemon :=
  {| _sniffer := _sniffer self; _jobs := _jobs self; _devices := f (_devices self);
     _errors := _errors self; heap := heap self; published := published self |}.
Definition set_errors (f : gmap string (gmap string string) → gmap string (gmap string string))
    (self : Daemon) : Daemon :=
  {| _sniffer := _sniffer self; _jobs := _jobs self; _devices := _devices self;
     _errors := f (_errors self); heap := heap self; published := published self |}.
Definition set_heap (f : list CachedDevice → list CachedDevice) (self : Daemon) : Daemon :=
  {| _sniffer := _sniffer self; _jobs := _jobs self; _devices := _devices self;
     _errors := _errors self; heap := f (heap self); published := published self |}.
Definition set_published (f : list Event → list Event) (self : Daemon) : Daemon :=
  {| _sniffer := _sniffer self; _jobs := _jobs self; _devices := _devices self;
     _errors := _errors self; heap := heap self; published := f (published self) |}.

(** A method of the daemon: it returns or raises, and leaves the daemon in
    the state it had reached. *)
Definition M (A : Type) : Type := Daemon → result A * Daemon.

Definition ret {A} (a : A) : M A := λ self, (Ok a, self).
Definition raise {A} (e : exn) : M A := λ self, (Raise e, self).
Definition bind {A B} (m : M A) (k : A → M B) : M B := λ self,
  match m self with
  | (Ok a, self) => k a self
  | (Raise e, self) => (Raise e, self)
  end.
Definition lift {A} (r : result A) : M A := λ self, (r, self).
Definition gets {A} (f : Daemon → A) : M A := λ self, (Ok (f self), self).
Definition modify (f : Daemon → Daemon) : M unit := λ self, (Ok tt, f self).

#[global] Instance M_ret : MRet M := @ret.
#[global] Instance M_bind : MBind M := λ A B k m, bind m k.

(** [d[key]] on a dictionary *)
Definition subscript {A} (d : gmap string A) (key : string) : M A :=
  match d !! key with
  | Some a => ret a
  | None => raise KeyError
  end.

(** Creates an object and returns the reference to it. *)
Definition alloc (c : CachedDevice) : M ref := λ self,
  (Ok (length (heap self)), set_heap (λ h, h ++ [c]) self).

Definition deref (r : ref) : M CachedDevice := λ self,
  match heap self !! r with
  | Some c => (Ok c, self)
  | None => (Raise SystemError, self)
  end.

(** The object behind a device argument. *)
Definition deref_dev (dev : option ref) : M (option CachedDevice) :=
  match dev with
  | Some r => c ← deref r; ret (Some c)
  | None => ret None
  end.

(** The names the daemon gives to its [Emitter]. *)
Definition event_names : list string :=
  (suffix ← ["ed"; "ing"];
   stem ← ["device_add"; "device_remov"; "device_mount"; "device_unmount";
           "media_add"; "media_remov"; "device_unlock"; "device_lock";
           "device_chang"];
   [stem +:+ suffix]) ++ ["job_failed"].

Definition _action_mapping : gmap string string :=
  list_to_map [ ("FilesystemMount", "mount"); ("FilesystemUnmount", "unmount");
                ("LuksUnlock", "unlock"); ("LuksLock", "lock");
                ("DriveDetach", "detach"); ("DriveEject", "eject") ].

Definition _event_mapping : gmap string string :=
  list_to_map [ ("mount", "device_mount"); ("unmount", "device_unmount");
                ("unlock", "device_unlock"); ("lock", "device_lock");
                ("eject", "media_remov"); ("detach", "device_remov") ].

(** The dictionary [_errors] of a new daemon. *)
Definition initial_errors : gmap string (gmap string string) :=
  list_to_map [ ("mount", ∅); ("unmount", ∅); ("unlock", ∅); ("lock", ∅);
                ("eject", ∅); ("detach", ∅) ].

(** [self._jobs[object_path].job_id], when [object_path in self._jobs] *)
Definition recorded_job_id (self : Daemon) (object_path : string) : option string :=
  job_id <$> _jobs self !! object_path.

(** The job kind a notification is judged by: the recorded one when the
    job is no longer in progress and the device has a job, the one of the
    notification otherwise. *)
Definition effective_job_id (self : Daemon) (object_path : string)
    (job_in_progress : bool) (job_id : string) : string :=
  match recorded_job_id self object_path with
  | Some recorded => if negb job_in_progress then recorded else job_id
  | None => job_id
  end.

(** The message kept for a device and an action, if any. *)
Definition error_slot (self : Daemon) (action device : string) : option string :=
  slot ← _errors self !! action; slot !! device.

(** Modelled from the spec: [udiskie.common.Emitter] is not among the
    sources.  Publishing an event invokes the handlers of its name in
    subscription order, synchronously, and a handler that raises is not
    isolated.  [emit] records the event for the subscribers outside of the
    module; the handler the daemon subscribes itself is run by [trigger]. *)
Definition emit (event : string) (args : list arg) : M unit :=
  modify (set_published (λ l, l ++ [ {| event_name := event; payload := args |} ])).

Section Methods.

Variable normpath : string → string.
Variable live : LiveSource.

(** [Daemon.get], also [Daemon.__getitem__] *)
Definition get (self : Daemon) (object_path : string) : option ref :=
  _devices self !! object_path.

(** [Daemon.paths]: the paths of the items whose device is true. *)
Fixpoint paths_of (items : list (string * ref)) : M (list string) :=
  match items with
  | [] => ret []
  | (object_path, r) :: items =>
      device ← deref r;
      b ← lift (CachedDevice_bool normpath live device);
      rest ← paths_of items;
      ret (if b : bool then object_path :: rest else rest)
  end.

Definition paths : M (list string) :=
  items ← gets (λ self, map_to_list (_devices self));
  paths_of items.

(** [filter(None, devices)] *)
Fixpoint filter_none (devices : list (option ref)) : M (list ref) :=
  match devices with
  | [] => ret []
  | None :: devices => filter_none devices
  | Some r :: devices =>
      device ← deref r;
      b ← lift (CachedDevice_bool normpath live device);
      rest ← filter_none devices;
      ret (if b : bool then r :: rest else rest)
  end.

(** [UDisks.__iter__] on the daemon *)
Definition iter : M (list ref) :=
  ps ← paths;
  devices ← gets (λ self, get self <$> ps);
  filter_none devices.

(** [Daemon._invalidate]: [copy] is to make a new object with the attributes
    of the entry, on which [is_valid] is then set; the entry itself is left
    as it is.  The instance that [copy] makes is lost when [copy] raises. *)
Definition _invalidate (object_path : string) : M unit :=
  devices ← gets _devices;
  match devices !! object_path with
  | Some r =>
      c ← deref r;
      y ← lift (copy normpath live c);
      update ← alloc (store "is_valid" (PyBool false) y);
      modify (set_devices <[object_path := update]>)
  | None => ret tt
  end.

(** [Daemon.update] *)
Definition update (object_path : string) : M ref :=
  sniffer ← gets _sniffer;
  c ← lift (CachedDevice_init normpath live (Sniffer_get sniffer object_path));
  cached ← alloc c;
  b ← lift (CachedDevice_bool normpath live c);
  devices ← gets _devices;
  (if b || bool_decide (devices !! object_path = None)
   then modify (set_devices <[object_path := cached]>)
   else _invalidate object_path);;
  ret cached.

(** [Daemon.set_error]; the device is given by its object path. *)
Definition set_error (device action message : string) : M unit :=
  errors ← gets _errors;
  slot ← subscript errors action;
  modify (set_errors <[action := <[device := message]> slot]>).

(** [Daemon._on_device_changed] *)
Definition _on_device_changed (old_state new_state : option ref) : M unit :=
  old ← deref_dev old_state;
  new ← deref_dev new_state;
  n ← lift (dev_getattr normpath live new "has_media");
  media_added ←
    (if truthy live n
     then o ← lift (dev_getattr normpath live old "has_media"); ret (negb (truthy live o))
     else ret false);
  o ← lift (dev_getattr normpath live old "has_media");
  media_removed ←
    (if truthy live o
     then n ← lift (dev_getattr normpath live new "has_media"); ret (negb (truthy live n))
     else ret false);
  (if media_added : bool then emit "media_added" [ADev new_state] else ret tt);;
  (if media_removed : bool then emit "media_removed" [ADev new_state] else ret tt).

(** [Emitter.trigger]: [_on_device_changed] is connected to
    [device_changed] when the daemon is made, before anything else can
    subscribe, so it is the first handler of that name; the subscribers
    outside of the module are served when it has returned. *)
Definition trigger (event : string) (args : list arg) : M unit :=
  (if decide (event = "device_changed") then
     match args with
     | [ADev old_state; ADev new_state] => _on_device_changed old_state new_state
     | _ => raise TypeError
     end
   else ret tt);;
  emit event args.

Definition _device_added (object_path : string) : M unit :=
  new_state ← update object_path;
  trigger "device_added" [ADev (Some new_state)].

Definition _device_removed (object_path : string) : M unit :=
  old_state ← gets (λ self, get self object_path);
  _invalidate object_path;;
  trigger "device_removed" [ADev old_state].

Definition _device_changed (object_path : string) : M unit :=
  old_state ← gets (λ self, get self object_path);
  new_state ← update object_path;
  trigger "device_changed" [ADev old_state; ADev (Some new_state)].

(** [not dev or not dev.key] *)
Definition not_dev_or_not (key : string) (dev : option CachedDevice) : result pyval :=
  n ← dev_not normpath live dev;
  if n : bool then Ok (PyBool true)
  else v ← dev_getattr normpath live dev key; Ok (PyBool (negb (truthy live v))).

Definition _check_success : gmap string (option CachedDevice → result pyval) :=
  list_to_map
    [ ("FilesystemMount", λ dev, dev_getattr normpath live dev "is_mounted");
      ("FilesystemUnmount", not_dev_or_not "is_mounted");
      ("LuksUnlock", λ dev, dev_getattr normpath live dev "is_unlocked");
      ("LuksLock", not_dev_or_not "is_unlocked");
      ("DriveDetach", λ dev, PyBool <$> dev_not normpath live dev);
      ("DriveEject", not_dev_or_not "has_media") ].

(** [del self._jobs[object_path]] *)
Definition del_job (object_path : string) : M unit :=
  jobs ← gets _jobs;
  match jobs !! object_path with
  | Some _ => modify (set_jobs (delete object_path))
  | None => raise KeyError
  end.

(** [self._check_success[job_id](dev)], as the condition of a branch *)
Definition check_success (job_id : string) (dev : option ref) : M bool :=
  check ← subscript _check_success job_id;
  d ← deref_dev dev;
  v ← lift (check d);
  ret (truthy live v).

(** [Daemon._device_job_changed] *)
Definition _device_job_changed (object_path : string) (job_in_progress : bool)
    (job_id : string) (job_initiated_by_user job_is_cancellable : bool)
    (job_percentage : Q) : M unit :=
  job_id ← gets (λ self, effective_job_id self object_path job_in_progress job_id);
  match _action_mapping !! job_id with
  | None => ret tt
  | Some action =>
      event_name ← subscript _event_mapping action;
      dev ← gets (λ self, get self object_path);
      if job_in_progress then
        trigger (event_name +:+ "ing") [ADev dev; APercentage job_percentage];;
        modify (set_jobs <[object_path := Build_Job job_id job_percentage]>)
      else
        success ← check_success job_id dev;
        if success : bool then
          trigger (event_name +:+ "ed") [ADev dev];;
          del_job object_path
        else
          errors ← gets _errors;
          slot ← subscript errors action;
          modify (set_errors <[action := delete object_path slot]>);;
          trigger "job_failed"
            [ADev dev; AStr ("device_" +:+ action); AStr (default "" (slot !! object_path))]
  end.

(** The second comprehension of [_sync]: a cached device for every item. *)
Fixpoint cache_all (items : list (string * OnlineDevice)) : M (gmap string ref) :=
  match items with
  | [] => ret ∅
  | (object_path, device) :: items =>
      c ← lift (CachedDevice_init normpath live device);
      r ← alloc c;
      rest ← cache_all items;
      ret (<[object_path := r]> rest)
  end.

(** [Daemon._sync]; in a dictionary comprehension the last item of a key
    is the one that stays. *)
Definition _sync : M unit :=
  sniffer ← gets _sniffer;
  let online : gmap string OnlineDevice :=
    list_to_map (reverse ((λ dev, (object_path dev, dev)) <$> Sniffer_iter live sniffer)) in
  devices ← cache_all (map_to_list online);
  modify (set_devices (λ _, devices)).

(** [Daemon.__init__] *)
Definition Daemon_init : result unit * Daemon :=
  _sync {| _sniffer := TheSniffer; _jobs := ∅; _devices := ∅;
           _errors := initial_errors; heap := []; published := [] |}.

End Methods.

(** ** The rest of the module *)

(** [filter_opt]: the keys of the items whose value is not [None]. *)
Definition filter_opt {A} (opt : list (string * option A)) : list string :=
  fst <$> filter (λ item, is_Some item.2) opt.

(** [s.split(',')] *)
Fixpoint split_comma (s : string) : list string :=
  match s with
  | EmptyString => [EmptyString]
  | String c s =>
      if decide (String c EmptyString = ",") then EmptyString :: split_comma s
      else match split_comma s with
           | word :: words => String c word :: words
           | [] => [String c EmptyString]
           end
  end.

(** The arguments [OnlineDevice.mount] calls [FilesystemMount] with. *)
Definition mount_arguments (live : LiveSource) (self : OnlineDevice)
    (fstype options : option string) (auth_no_user_interaction : option bool)
    : result (string * list string) :=
  let options :=
    filter (λ o, o ≠ "") (split_comma (default "" options))
    ++ filter_opt [("auth_no_user_interaction", auth_no_user_interaction)] in
  fstype ← match fstype with
           | Some t => if decide (t = "") then id_type live self else Ok t
           | None => id_type live self
           end;
  mret (fstype, options).

(** The argument of [FilesystemUnmount] and of [DriveEject]. *)
Definition unmount_arguments (force : option bool) : list string :=
  filter_opt [("force", force)].
Definition eject_arguments (unmount : option bool) : list string :=
  filter_opt [("unmount", unmount)].

(** The device [drive] goes on with: the container of a partition, the
    crypto device of a cleartext device. *)
Definition container (live : LiveSource) (self : OnlineDevice) : option OnlineDevice :=
  match objects live !! object_path self with
  | Some bag =>
      if DeviceIsPartition bag
      then Some (Sniffer_get (udisks self) (PartitionSlave bag))
      else if DeviceIsLuksCleartext bag
           then Some (Sniffer_get (udisks self) (LuksCleartextSlave bag))
           else None
  | None => None
  end.

(** The device [n] steps up from a device. *)
Fixpoint ancestor (live : LiveSource) (n : nat) (self : OnlineDevice)
    : option OnlineDevice :=
  match n with
  | O => Some self
  | S n => s ← container live self; ancestor live n s
  end.

Section Find.

Variable normpath : string → string.
Variable live : LiveSource.
(** [udiskie.common.samefile], which is not among the sources: whether two
    paths name the same file. *)
Variable samefile : string → string → bool.

(** [DeviceBase.is_file] on a cached device.  [samefile] compares paths; a
    device file that is not a string, or mount paths that are not a list,
    are a [TypeError]. *)
Definition is_file (self : CachedDevice) (path : string) : result bool :=
  f ← CachedDevice_getattr normpath live self "device_file";
  match f with
  | PyStr f =>
      if samefile path f then Ok true
      else
        mps ← CachedDevice_getattr normpath live self "mount_paths";
        match mps with
        | PyList mps => Ok (existsb (samefile path) mps)
        | _ => Raise TypeError
        end
  | _ => Raise TypeError
  end.

(** The loop of [UDisks.find]. *)
Fixpoint find_in (devices : list ref) (path : string) : M (option ref) :=
  match devices with
  | [] => ret None
  | r :: devices =>
      device ← deref r;
      b ← lift (is_file device path);
      if b : bool then ret (Some r) else find_in devices path
  end.

(** [UDisks.find] on the daemon *)
Definition find (path : string) : M (option ref) :=
  devices ← iter normpath live;
  find_in devices path.

End Find.

(** ** Runs of the daemon *)

(** What happens to a daemon: the four signals of the service, and the call
    of [set_error] by the code that starts an operation. *)
Inductive Call :=
  | DeviceAdded (object_path : string)
  | DeviceRemoved (object_path : string)
  | DeviceChanged (object_path : string)
  | DeviceJobChanged (object_path : string) (job_in_progress : bool) (job_id : string)
      (job_initiated_by_user job_is_cancellable : bool) (job_percentage : Q)
  | SetError (device action message : string).

Definition handle (normpath : string → string) (live : LiveSource) (c : Call) : M unit :=
  match c with
  | DeviceAdded p => _device_added normpath live p
  | DeviceRemoved p => _device_removed normpath live p
  | DeviceChanged p => _device_changed normpath live p
  | DeviceJobChanged p in_progress id by_user cancellable percentage =>
      _device_job_changed normpath live p in_progress id by_user cancellable percentage
  | SetError device action message => set_error device action message
  end.

(** The states of a daemon: the one its construction leaves, and the one
    any call leaves, whether it returns or raises, whatever the state of the
    service at that time. *)
Inductive reachable (normpath : string → string) : Daemon → Prop :=
  | reachable_init live self :
      Daemon_init normpath live = (Ok tt, self) → reachable normpath self
  | reachable_call live c self :
      reachable normpath self → reachable normpath (handle normpath live c self).2.

(** * Specification *)

(** ** Snapshots and the invariant of the daemon *)

(** The names of the properties of [OnlineDevice], as [getmembers] lists
    them. *)
Definition property_names : list string :=
  [ "device_file"; "device_presentation"; "drive"; "has_media"; "id_label";
    "id_type"; "id_usage"; "id_uuid"; "in_use"; "is_block"; "is_crypto";
    "is_detachable"; "is_drive"; "is_ejectable"; "is_external";
    "is_filesystem"; "is_ignored"; "is_luks"; "is_luks_cleartext";
    "is_mounted"; "is_partition"; "is_partition_table"; "is_systeminternal";
    "is_toplevel"; "is_unlocked"; "is_valid"; "luks_cleartext_holder";
    "luks_cleartext_slave"; "mount_paths"; "partition_slave"; "root" ].

(** What [CachedDevice.__init__] and [_invalidate] make: an object with a
    boolean [is_valid] and a value for every property that is not
    overloaded. *)
Definition is_snapshot (c : CachedDevice) : Prop :=
  (∃ b, instance_dict c !! "is_valid" = Some (PyBool b)) ∧
  ∀ key, key ∈ property_names → key ∉ cached_device_properties →
         is_Some (instance_dict c !! key).

Record daemon_wf (self : Daemon) : Prop := {
  (** the devices of the registry are objects of the heap *)
  wf_devices : ∀ p r, _devices self !! p = Some r → r < length (heap self);
  (** the objects of the heap are snapshots *)
  wf_heap : ∀ r c, heap self !! r = Some c → is_snapshot c;
  (** the error slots are those of the six actions *)
  wf_errors : dom (_errors self) = dom initial_errors;
  (** the events have names the emitter was made with *)
  wf_published : ∀ e, e ∈ published self → event_name e ∈ event_names;
}.

(** A method keeps the invariant, whether it returns or raises, and
    establishes [Q] when it returns. *)
Definition keeps {A} (P : Daemon → Prop) (m : M A) (Q : A → Daemon → Prop) : Prop :=
  ∀ self, P self →
    match m self with
    | (Ok a, self') => Q a self'
    | (Raise _, self') => daemon_wf self'
    end.

(** ** Events *)

(** The event the daemon adds to those it has published. *)
Definition publish (event : string) (args : list arg) (self : Daemon) : Daemon :=
  set_published (λ l, l ++ [Build_Event event args]) self.

(** The names the specification lists. *)
Definition spec_event_names : list string :=
  [ "device_added"; "device_removed"; "device_changed"; "device_mounting";
    "device_mounted"; "device_unmounting"; "device_unmounted"; "device_locking";
    "device_locked"; "device_unlocking"; "device_unlocked"; "device_changing";
    "media_adding"; "media_added"; "media_removing"; "media_removed";
    "job_failed" ].

(** ** Job notifications *)

(** The handler the specification describes: the entry of the registry is
    refreshed from the live service before a finished job is judged. *)
Definition refreshing_device_job_changed (normpath : string → string)
    (live : LiveSource) (object_path : string) (job_in_progress : bool)
    (job_id : string) (job_initiated_by_user job_is_cancellable : bool)
    (job_percentage : Q) : M unit :=
  (if job_in_progress then ret tt else update normpath live object_path;; ret tt);;
  _device_job_changed normpath live object_path job_in_progress job_id
    job_initiated_by_user job_is_cancellable job_percentage.

(** The names of the events a method has left. *)
Definition event_log {A} (out : result A * Daemon) : list string :=
  event_name <$> published out.2.

(** A finished job is judged as if the entry had been refreshed first. *)
Definition judged_after_refresh (normpath : string → string) (live : LiveSource)
    (self : Daemon) (object_path job_id : string) (job_percentage : Q) : Prop :=
  event_log (_device_job_changed normpath live object_path false job_id
               false false job_percentage self) =
  event_log (refreshing_device_job_changed normpath live object_path false job_id
               false false job_percentage self).

(** ** The success predicates *)

(** The table of the specification, in its words.  A snapshot is absent or
    invalid; a snapshot has a property when the value it holds for it is
    true. *)
Definition absent_or_invalid (dev : option CachedDevice) : Prop :=
  match dev with
  | Some c => instance_dict c !! "is_valid" = Some (PyBool false)
  | None => True
  end.

Definition snapshot_is (live : LiveSource) (key : string)
    (dev : option CachedDevice) : Prop :=
  ∃ c v, dev = Some c ∧ instance_dict c !! key = Some v ∧ truthy live v = true.

Definition spec_success (live : LiveSource) (action : string)
    (dev : option CachedDevice) : Prop :=
  if decide (action = "mount") then snapshot_is live "is_mounted" dev
  else if decide (action = "unmount") then
    absent_or_invalid dev ∨ ¬ snapshot_is live "is_mounted" dev
  else if decide (action = "unlock") then snapshot_is live "is_unlocked" dev
  else if decide (action = "lock") then
    absent_or_invalid dev ∨ ¬ snapshot_is live "is_unlocked" dev
  else if decide (action = "eject") then
    absent_or_invalid dev ∨ ¬ snapshot_is live "has_media" dev
  else if decide (action = "detach") then absent_or_invalid dev
  else False.

(** A predicate of the code holds: it returns a true value. *)
Definition holds (live : LiveSource) (r : result pyval) : Prop :=
  ∃ v, r = Ok v ∧ truthy live v = true.

(** ** Iteration over the registry *)

(** The object behind a reference is a snapshot that is valid. *)
Definition valid_entry (self : Daemon) (r : ref) : Prop :=
  ∃ c, heap self !! r = Some c ∧ instance_dict c !! "is_valid" = Some (PyBool true).

(** ** Examples *)

Module Examples.

Definition bag (file : string) : DeviceProps :=
  {| DeviceFile := file; DeviceFilePresentation := file;
     DeviceIsDrive := false; DeviceIsPartitionTable := false;
     DeviceIsPartition := false; DeviceIsLuks := false;
     DeviceIsLuksCleartext := false; DeviceIsSystemInternal := false;
     DeviceIsMediaAvailable := true; DeviceIsMounted := false;
     DeviceMountPaths := []; DevicePresentationHide := false;
     DriveCanDetach := false; DriveIsMediaEjectable := false;
     IdUsage := "filesystem"; IdType := "ext4"; IdLabel := ""; IdUuid := "";
     LuksCleartextSlave := "/"; LuksHolder := "/"; PartitionSlave := "/" |}.

Definition with_mounted (b : bool) (mp : list string) (p : DeviceProps) : DeviceProps :=
  {| DeviceFile := DeviceFile p; DeviceFilePresentation := DeviceFilePresentation p;
     DeviceIsDrive := DeviceIsDrive p; DeviceIsPartitionTable := DeviceIsPartitionTable p;
     DeviceIsPartition := DeviceIsPartition p; DeviceIsLuks := DeviceIsLuks p;
     DeviceIsLuksCleartext := DeviceIsLuksCleartext p;
     DeviceIsSystemInternal := DeviceIsSystemInternal p;
     DeviceIsMediaAvailable := DeviceIsMediaAvailable p; DeviceIsMounted := b;
     DeviceMountPaths := mp; DevicePresentationHide := DevicePresentationHide p;
     DriveCanDetach := DriveCanDetach p; DriveIsMediaEjectable := DriveIsMediaEjectable p;
     IdUsage := IdUsage p; IdType := IdType p; IdLabel := IdLabel p; IdUuid := IdUuid p;
     LuksCleartextSlave := LuksCleartextSlave p; LuksHolder := LuksHolder p;
     PartitionSlave := PartitionSlave p |}.

Definition with_slave (s : string) (p : DeviceProps) : DeviceProps :=
  {| DeviceFile := DeviceFile p; DeviceFilePresentation := DeviceFilePresentation p;
     DeviceIsDrive := DeviceIsDrive p; DeviceIsPartitionTable := DeviceIsPartitionTable p;
     DeviceIsPartition := true; DeviceIsLuks := DeviceIsLuks p;
     DeviceIsLuksCleartext := DeviceIsLuksCleartext p;
     DeviceIsSystemInternal := DeviceIsSystemInternal p;
     DeviceIsMediaAvailable := DeviceIsMediaAvailable p;
     DeviceIsMounted := DeviceIsMounted p;
     DeviceMountPaths := DeviceMountPaths p;
     DevicePresentationHide := DevicePresentationHide p;
     DriveCanDetach := DriveCanDetach p; DriveIsMediaEjectable := DriveIsMediaEjectable p;
     IdUsage := IdUsage p; IdType := IdType p; IdLabel := IdLabel p; IdUuid := IdUuid p;
     LuksCleartextSlave := LuksCleartextSlave p; LuksHolder := LuksHolder p;
     PartitionSlave := s |}.

Definition as_drive (p : DeviceProps) : DeviceProps :=
  {| DeviceFile := DeviceFile p; DeviceFilePresentation := DeviceFilePresentation p;
     DeviceIsDrive := true; DeviceIsPartitionTable := true;
     DeviceIsPartition := DeviceIsPartition p; DeviceIsLuks := DeviceIsLuks p;
     DeviceIsLuksCleartext := DeviceIsLuksCleartext p;
     DeviceIsSystemInternal := DeviceIsSystemInternal p;
     DeviceIsMediaAvailable := DeviceIsMediaAvailable p;
     DeviceIsMounted := DeviceIsMounted p;
     DeviceMountPaths := DeviceMountPaths p;
     DevicePresentationHide := DevicePresentationHide p;
     DriveCanDetach := true; DriveIsMediaEjectable := true;
     IdUsage := ""; IdType := ""; IdLabel := IdLabel p; IdUuid := IdUuid p;
     LuksCleartextSlave := LuksCleartextSlave p; LuksHolder := LuksHolder p;
     PartitionSlave := PartitionSlave p |}.

(** A drive with one partition, not mounted. *)
Definition live0 : LiveSource :=
  {| EnumerateDevices := ["/dev/sdb"; "/dev/sdb1"];
     objects := <["/dev/sdb" := as_drive (bag "/dev/sdb")]>
                (<["/dev/sdb1" := with_slave "/dev/sdb" (bag "/dev/sdb1")]> ∅) |}.

(** The same, after the partition was mounted. *)
Definition live1 : LiveSource :=
  {| EnumerateDevices := ["/dev/sdb"; "/dev/sdb1"];
     objects := <["/dev/sdb" := as_drive (bag "/dev/sdb")]>
                (<["/dev/sdb1" := with_mounted true ["/media/usb"]
                                    (with_slave "/dev/sdb" (bag "/dev/sdb1"))]> ∅) |}.

Definition without_media (p : DeviceProps) : DeviceProps :=
  {| DeviceFile := DeviceFile p; DeviceFilePresentation := DeviceFilePresentation p;
     DeviceIsDrive := DeviceIsDrive p; DeviceIsPartitionTable := DeviceIsPartitionTable p;
     DeviceIsPartition := DeviceIsPartition p; DeviceIsLuks := DeviceIsLuks p;
     DeviceIsLuksCleartext := DeviceIsLuksCleartext p;
     DeviceIsSystemInternal := DeviceIsSystemInternal p;
     DeviceIsMediaAvailable := false;
     DeviceIsMounted := DeviceIsMounted p;
     DeviceMountPaths := DeviceMountPaths p;
     DevicePresentationHide := DevicePresentationHide p;
     DriveCanDetach := DriveCanDetach p; DriveIsMediaEjectable := DriveIsMediaEjectable p;
     IdUsage := IdUsage p; IdType := IdType p; IdLabel := IdLabel p; IdUuid := IdUuid p;
     LuksCleartextSlave := LuksCleartextSlave p; LuksHolder := LuksHolder p;
     PartitionSlave := PartitionSlave p |}.

(** The same as [live0], after the medium was taken out of the drive. *)
Definition live2 : LiveSource :=
  {| EnumerateDevices := ["/dev/sdb"; "/dev/sdb1"];
     objects := <["/dev/sdb" := without_media (as_drive (bag "/dev/sdb"))]>
                (<["/dev/sdb1" := with_slave "/dev/sdb" (bag "/dev/sdb1")]> ∅) |}.

(** The daemon made while the service is in the state [live0]. *)
Definition daemon0 : Daemon := (Daemon_init id live0).2.

Definition as_luks (holder : string) (p : DeviceProps) : DeviceProps :=
  {| DeviceFile := DeviceFile p; DeviceFilePresentation := DeviceFilePresentation p;
     DeviceIsDrive := DeviceIsDrive p; DeviceIsPartitionTable := DeviceIsPartitionTable p;
     DeviceIsPartition := DeviceIsPartition p; DeviceIsLuks := true;
     DeviceIsLuksCleartext := DeviceIsLuksCleartext p;
     DeviceIsSystemInternal := DeviceIsSystemInternal p;
     DeviceIsMediaAvailable := DeviceIsMediaAvailable p;
     DeviceIsMounted := DeviceIsMounted p;
     DeviceMountPaths := DeviceMountPaths p;
     DevicePresentationHide := DevicePresentationHide p;
     DriveCanDetach := DriveCanDetach p; DriveIsMediaEjectable := DriveIsMediaEjectable p;
     IdUsage := "crypto"; IdType := "crypto_LUKS"; IdLabel := IdLabel p; IdUuid := IdUuid p;
     LuksCleartextSlave := LuksCleartextSlave p; LuksHolder := holder;
     PartitionSlave := PartitionSlave p |}.

(** A drive with an encrypted partition that is locked. *)
Definition live3 : LiveSource :=
  {| EnumerateDevices := ["/dev/sdb"; "/dev/sdb2"];
     objects := <["/dev/sdb" := as_drive (bag "/dev/sdb")]>
                (<["/dev/sdb2" := as_luks "/" (with_slave "/dev/sdb" (bag "/dev/sdb2"))]> ∅) |}.

(** The daemon after the start of a mount job on the partition. *)
Definition mounting : Daemon :=
  (handle id live0
     (DeviceJobChanged "/dev/sdb1" true "FilesystemMount" false false 0) daemon0).2.

End Examples.

(** ** How the state of the daemon evolves *)

(** Every run of a method takes the daemon to a state related to the one it
    started in. *)
Definition evolves (R : relation Daemon) {A} (m : M A) : Prop :=
  ∀ self, R self (m self).2.

(** A relation that the steps of the device signals respect: making an
    object, binding an identifier of the registry, publishing an event. *)
Record signal_stable (R : relation Daemon) : Prop := {
  stable_preorder : PreOrder R;
  stable_alloc : ∀ self c, R self (set_heap (λ h, h ++ [c]) self);
  stable_bind : ∀ self p r, R self (set_devices <[p := r]> self);
  stable_publish : ∀ self event args, R self (publish event args self);
}.

(** The state only grows: the objects stay, the identifiers stay, the events
    stay. *)
Definition grows (self self' : Daemon) : Prop :=
  heap self `prefix_of` heap self' ∧
  dom (_devices self) ⊆ dom (_devices self') ∧
  published self `prefix_of` published self'.

(** The jobs and the error slots are the same. *)
Definition same_jobs_and_errors (self self' : Daemon) : Prop :=
  _jobs self = _jobs self' ∧ _errors self = _errors self'.

(** The registry and its objects are the same. *)
Definition same_registry (self self' : Daemon) : Prop :=
  _devices self = _devices self' ∧ heap self = heap self'.

(** The identifiers that are bound to a valid snapshot are still bound to a
    valid snapshot. *)
Definition stays_valid (self self' : Daemon) : Prop :=
  ∀ p r, _devices self !! p = Some r → valid_entry self r →
         ∃ r', _devices self' !! p = Some r' ∧ valid_entry self' r'.

(** The loop of [in_use] over the devices of the service, with the call of
    [in_use] on a device as [rec]. *)
Fixpoint in_use_scan (live : LiveSource) (rec : OnlineDevice → result bool)
    (self : OnlineDevice) (devices : list OnlineDevice) : result bool :=
  match devices with
  | [] => mret false
  | device :: devices =>
      s ← partition_slave live device;
      if device_eq s self then
        b ← rec device;
        if b : bool then mret true else in_use_scan live rec self devices
      else in_use_scan live rec self devices
  end.

(** The slot [setattr] writes for a key. *)
Definition slot_of (key : string) : string :=
  if decide (key ∈ cached_device_properties) then "_" +:+ key else key.

(** The value [setattr] keeps for a key. *)
Definition kept_value (key : string) (v : pyval) : pyval :=
  if decide (key ∈ cached_device_properties) then object_path_or_none v else v.

(** What a property of a device without an object on the service is cached
    as. *)
Definition vanished_value (key : string) : pyval :=
  if decide (key = "is_block") then PyBool true
  else if decide (key = "is_valid") then PyBool false
  else PyNone.

(** * Properties *)

(** Closes a decidable goal about concrete names by evaluation. *)
Ltac by_evaluation := apply (bool_decide_unpack _); vm_compute; exact I.

(** Splits a membership in a concrete list into its cases. *)
Ltac cases_of H :=
  repeat (apply elem_of_cons in H as [H|H]);
  [ injection H as -> -> .. | by apply elem_of_nil in H ].

(** ** Snapshots *)

Lemma OnlineDevice_properties_names normpath live :
  (OnlineDevice_properties normpath live).*1 = property_names.
Proof. reflexivity. Qed.

Lemma store_lookup key v c k :
  instance_dict (store key v c) !! k =
    if decide (key = k) then Some v else instance_dict c !! k.
Proof. unfold store; simpl. apply lookup_insert. Qed.

Lemma store_keeps key v c k :
  is_Some (instance_dict c !! k) → is_Some (instance_dict (store key v c) !! k).
Proof. rewrite store_lookup. case_decide; eauto. Qed.

Lemma setattr_keeps c key v k :
  is_Some (instance_dict c !! k) →
  is_Some (instance_dict (CachedDevice_setattr c key v) !! k).
Proof. unfold CachedDevice_setattr. case_decide; apply store_keeps. Qed.

Lemma setattr_sets c key v :
  key ∉ cached_device_properties →
  instance_dict (CachedDevice_setattr c key v) !! key = Some v.
Proof.
  intros Hk. unfold CachedDevice_setattr. rewrite decide_False by done.
  rewrite store_lookup. by rewrite decide_True.
Qed.

Lemma cache_properties_keys device members :
  ∀ self c, cache_properties device members self = Ok c →
  ∀ key, key ∈ members.*1 ∨ is_Some (instance_dict self !! key) →
         key ∉ cached_device_properties → is_Some (instance_dict c !! key).
Proof.
  induction members as [|[k prop] members IH]; intros self c Hc key Hkey Hno.
  - simpl in Hc. injection Hc as <-. destruct Hkey as [Hin|]; [|done].
    by apply elem_of_nil in Hin.
  - simpl in Hc. destruct (except_dbus (prop device) PyNone) as [v|e] eqn:Hv;
      simpl in Hc; [|done].
    apply (IH _ _ Hc); [|done].
    destruct Hkey as [Hin|Hsome].
    + simpl in Hin. apply elem_of_cons in Hin as [->|Hin]; [|by left].
      right. rewrite setattr_sets; eauto.
    + right. by apply setattr_keeps.
Qed.

Lemma CachedDevice_init_snapshot normpath live device c :
  CachedDevice_init normpath live device = Ok c → is_snapshot c.
Proof.
  unfold CachedDevice_init. intros Hc.
  destruct (cache_properties _ _ _) as [self|e] eqn:Hself; simpl in Hc; [|done].
  injection Hc as <-. split.
  - eexists. rewrite store_lookup. by rewrite decide_True.
  - intros key Hkey Hno. apply store_keeps.
    apply (cache_properties_keys _ _ _ _ Hself); [|done].
    left. by rewrite OnlineDevice_properties_names.
Qed.

Lemma invalid_copy_snapshot c :
  is_snapshot c → is_snapshot (store "is_valid" (PyBool false) c).
Proof.
  intros [_ Hkeys]. split.
  - eexists. rewrite store_lookup. by rewrite decide_True.
  - intros key Hkey Hno. apply store_keeps. by apply Hkeys.
Qed.

(** ** The copy of a cached device *)

(** An instance without attributes has no [_device] to ask: the lookup
    runs until the interpreter stops it, however many calls it allows. *)
Lemma blank_getattr_raises normpath live depth key :
  blank_getattr normpath live depth key = Raise RecursionError.
Proof.
  revert key. induction depth as [|depth IH]; intros key; [done|].
  simpl. by rewrite IH.
Qed.

Lemma copy_raises normpath live x : copy normpath live x = Raise RecursionError.
Proof. unfold copy. by rewrite blank_getattr_raises. Qed.

(** What [copy] returns, if it returns, has the attributes of its
    argument. *)
Lemma copy_returns normpath live x y : copy normpath live x = Ok y → y = x.
Proof.
  unfold copy. destruct (hasattr _) as [[]|]; simpl; [done| |done].
  by intros [= <-].
Qed.

Lemma is_valid_not_overloaded : "is_valid" ∉ cached_device_properties.
Proof. by_evaluation. Qed.

(** A snapshot has a truth value. *)
Lemma snapshot_bool normpath live c :
  is_snapshot c →
  ∃ b, instance_dict c !! "is_valid" = Some (PyBool b) ∧
       CachedDevice_bool normpath live c = Ok b.
Proof.
  intros [[b Hb] _]. exists b. split; [done|].
  unfold CachedDevice_bool, CachedDevice_getattr.
  rewrite decide_False by apply is_valid_not_overloaded.
  by rewrite Hb.
Qed.

(** ** The invariant of the daemon *)

Lemma keeps_ret {A} (P : Daemon → Prop) (a : A) (Q : A → Daemon → Prop) :
  (∀ self, P self → Q a self) → keeps P (ret a) Q.
Proof. intros H self HP. by apply H. Qed.

Lemma keeps_raise {A} (P : Daemon → Prop) e (Q : A → Daemon → Prop) :
  (∀ self, P self → daemon_wf self) → keeps P (raise e) Q.
Proof. intros H self HP. by apply H. Qed.

Lemma keeps_bind {A B} (P : Daemon → Prop) (m : M A) (k : A → M B) Q R :
  keeps P m Q → (∀ a, keeps (Q a) (k a) R) → keeps P (m ≫= k) R.
Proof.
  intros Hm Hk self HP. specialize (Hm self HP).
  unfold mbind, M_bind, bind. destruct (m self) as [[a|e] self']; [|done].
  by apply Hk.
Qed.

Lemma keeps_weaken {A} (P P' : Daemon → Prop) (m : M A) (Q Q' : A → Daemon → Prop) :
  keeps P' m Q' → (∀ self, P self → P' self) → (∀ a self, Q' a self → Q a self) →
  keeps P m Q.
Proof.
  intros Hm HP HQ self Hself. specialize (Hm self (HP _ Hself)).
  destruct (m self) as [[a|e] self']; auto.
Qed.

Lemma keeps_lift {A} (P : Daemon → Prop) (r : result A) (Q : A → Daemon → Prop) :
  (∀ self, P self → daemon_wf self) →
  (∀ a self, r = Ok a → P self → Q a self) → keeps P (lift r) Q.
Proof. intros Hwf HQ self HP. unfold lift. destruct r; auto. Qed.

Lemma keeps_gets {A} (P : Daemon → Prop) (f : Daemon → A) (Q : A → Daemon → Prop) :
  (∀ self, P self → Q (f self) self) → keeps P (gets f) Q.
Proof. intros H self HP. by apply H. Qed.

Lemma keeps_modify (P : Daemon → Prop) (f : Daemon → Daemon) (Q : unit → Daemon → Prop) :
  (∀ self, P self → Q tt (f self)) → keeps P (modify f) Q.
Proof. intros H self HP. by apply H. Qed.

Lemma keeps_subscript {A} (P : Daemon → Prop) (d : gmap string A) key
    (Q : A → Daemon → Prop) :
  (∀ self, P self → daemon_wf self) →
  (∀ a self, d !! key = Some a → P self → Q a self) → keeps P (subscript d key) Q.
Proof.
  intros Hwf HQ self HP. unfold subscript.
  destruct (d !! key) as [a|] eqn:Ha; simpl; auto.
Qed.

(** *** The invariant under the updates of the state *)

Lemma wf_alloc self c :
  daemon_wf self → is_snapshot c → daemon_wf (set_heap (λ h, h ++ [c]) self).
Proof.
  intros [Hd Hh He Hp] Hc. split; simpl; auto.
  - intros p r Hr. rewrite length_app. specialize (Hd _ _ Hr). lia.
  - intros r c' Hr. apply lookup_app_Some in Hr as [Hr|[_ Hr]]; [eauto|].
    apply list_lookup_singleton_Some in Hr as [_ <-]. done.
Qed.

Lemma wf_set_devices self p r :
  daemon_wf self → r < length (heap self) →
  daemon_wf (set_devices <[p := r]> self).
Proof.
  intros [Hd Hh He Hp] Hr. split; simpl; auto.
  intros p' r' Hr'. apply lookup_insert_Some in Hr' as [[_ <-]|[_ Hr']]; eauto.
Qed.

Lemma wf_set_jobs self f : daemon_wf self → daemon_wf (set_jobs f self).
Proof. intros [Hd Hh He Hp]. split; simpl; auto. Qed.

Lemma wf_set_errors self action slot :
  daemon_wf self → is_Some (_errors self !! action) →
  daemon_wf (set_errors <[action := slot]> self).
Proof.
  intros [Hd Hh He Hp] Ha. split; simpl; auto.
  rewrite <- He. by apply dom_insert_lookup_L.
Qed.

Lemma wf_emit self event args :
  daemon_wf self → event ∈ event_names →
  daemon_wf (set_published (λ l, l ++ [Build_Event event args]) self).
Proof.
  intros [Hd Hh He Hp] Hev. split; simpl; auto.
  intros e Hin. apply elem_of_app in Hin as [Hin|Hin]; [eauto|].
  apply list_elem_of_singleton in Hin as ->. done.
Qed.

(** *** The invariant under the methods *)

Lemma keeps_alloc (P : Daemon → Prop) c (Q : ref → Daemon → Prop) :
  (∀ self, P self → Q (length (heap self)) (set_heap (λ h, h ++ [c]) self)) →
  keeps P (alloc c) Q.
Proof. intros H self HP. by apply H. Qed.

Lemma keeps_deref (P : Daemon → Prop) r (Q : CachedDevice → Daemon → Prop) :
  (∀ self, P self → daemon_wf self) →
  (∀ c self, heap self !! r = Some c → P self → Q c self) → keeps P (deref r) Q.
Proof.
  intros Hwf HQ self HP. unfold deref.
  destruct (heap self !! r) as [c|] eqn:Hc; auto.
Qed.

Lemma keeps_deref_dev dev :
  keeps daemon_wf (deref_dev dev) (λ _, daemon_wf).
Proof.
  destruct dev as [r|]; simpl; [|by apply keeps_ret].
  eapply keeps_bind; [apply keeps_deref with (Q := λ _, daemon_wf); auto|].
  intros c. by apply keeps_ret.
Qed.

Lemma keeps_emit event args :
  event ∈ event_names → keeps daemon_wf (emit event args) (λ _, daemon_wf).
Proof. intros He. apply keeps_modify. intros self Hwf. by apply wf_emit. Qed.

Lemma keeps_when (b : bool) (m : M unit) :
  keeps daemon_wf m (λ _, daemon_wf) →
  keeps daemon_wf (if b then m else ret tt) (λ _, daemon_wf).
Proof. intros Hm. destruct b; [done|]. by apply keeps_ret. Qed.

Lemma invalidate_known normpath live self object_path r old :
  _devices self !! object_path = Some r → heap self !! r = Some old →
  _invalidate normpath live object_path self = (Raise RecursionError, self).
Proof.
  intros Hr Hold. unfold _invalidate, mbind, M_bind, bind, gets, deref, lift.
  by rewrite Hr, Hold, copy_raises.
Qed.

Lemma invalidate_unknown normpath live self object_path :
  _devices self !! object_path = None →
  _invalidate normpath live object_path self = (Ok tt, self).
Proof.
  intros Hr. unfold _invalidate, mbind, M_bind, bind, gets. by rewrite Hr.
Qed.

(** [_invalidate] leaves the daemon as it is, whatever it is asked. *)
Lemma invalidate_state normpath live self object_path :
  (_invalidate normpath live object_path self).2 = self.
Proof.
  unfold _invalidate, mbind, M_bind, bind, gets, deref, lift.
  destruct (_devices self !! object_path) as [r|]; [|done].
  destruct (heap self !! r); [|done]. by rewrite copy_raises.
Qed.

Lemma keeps_invalidate normpath live object_path :
  keeps daemon_wf (_invalidate normpath live object_path) (λ _, daemon_wf).
Proof.
  unfold _invalidate.
  eapply keeps_bind with (Q := λ devices self, daemon_wf self ∧ devices = _devices self).
  { by apply keeps_gets. }
  intros devices. destruct (devices !! object_path) as [r|] eqn:Hr.
  - eapply keeps_bind with (Q := λ c self, daemon_wf self ∧ is_snapshot c).
    { apply keeps_deref; [tauto|]. intros c self Hc [Hwf _]. split; [done|].
      by eapply wf_heap. }
    intros c.
    eapply keeps_bind with (Q := λ y self, daemon_wf self ∧ is_snapshot y).
    { apply keeps_lift; [tauto|]. intros y self Hy [Hwf Hc].
      by apply copy_returns in Hy as ->. }
    intros y. eapply keeps_bind
      with (Q := λ r self, daemon_wf self ∧ r < length (heap self)).
    { apply keeps_alloc. intros self [Hwf Hc]. split.
      - apply wf_alloc; [done|]. by apply invalid_copy_snapshot.
      - simpl. rewrite length_app. simpl. lia. }
    intros r'. apply keeps_modify. intros self [Hwf Hr']. by apply wf_set_devices.
  - apply keeps_ret. tauto.
Qed.

Lemma keeps_set_error device action message :
  keeps daemon_wf (set_error device action message) (λ _, daemon_wf).
Proof.
  unfold set_error.
  eapply keeps_bind with (Q := λ errors self, daemon_wf self ∧ errors = _errors self).
  { by apply keeps_gets. }
  intros errors.
  eapply keeps_bind
    with (Q := λ _ self, daemon_wf self ∧ is_Some (_errors self !! action)).
  { apply keeps_subscript; [tauto|]. intros slot self Hs [Hwf ->]. eauto. }
  intros slot. apply keeps_modify. intros self [Hwf Hs]. by apply wf_set_errors.
Qed.

Section Invariant.

Variable normpath : string → string.
Variable live : LiveSource.

Lemma keeps_update object_path :
  keeps daemon_wf (update normpath live object_path)
        (λ r self, daemon_wf self ∧ r < length (heap self)).
Proof.
  unfold update.
  eapply keeps_bind with (Q := λ _, daemon_wf); [by apply keeps_gets|].
  intros sniffer.
  eapply keeps_bind with (Q := λ c self, daemon_wf self ∧ is_snapshot c).
  { apply keeps_lift; [done|]. intros c self Hc Hwf. split; [done|].
    by eapply CachedDevice_init_snapshot. }
  intros c.
  eapply keeps_bind with (Q := λ r self, daemon_wf self ∧ r < length (heap self)).
  { apply keeps_alloc. intros self [Hwf Hc]. split; [by apply wf_alloc|].
    simpl. rewrite length_app. simpl. lia. }
  intros cached.
  eapply keeps_bind
    with (Q := λ _ self, daemon_wf self ∧ cached < length (heap self)).
  { apply keeps_lift; tauto. }
  intros b.
  eapply keeps_bind
    with (Q := λ _ self, daemon_wf self ∧ cached < length (heap self)).
  { by apply keeps_gets. }
  intros devices.
  eapply keeps_bind
    with (Q := λ _ self, daemon_wf self ∧ cached < length (heap self)).
  - destruct (b || bool_decide (devices !! object_path = None)).
    + apply keeps_modify. intros self [Hwf Hr]. split; [|done].
      by apply wf_set_devices.
    + intros self [Hwf Hr].
      pose proof (invalidate_state normpath live self object_path) as Hs.
      destruct (_invalidate normpath live object_path self) as [[[]|e] self'];
        simpl in Hs; by subst self'.
  - intros ?. apply keeps_ret. tauto.
Qed.

Lemma keeps_on_device_changed old_state new_state :
  keeps daemon_wf (_on_device_changed normpath live old_state new_state)
        (λ _, daemon_wf).
Proof.
  unfold _on_device_changed.
  eapply keeps_bind; [apply keeps_deref_dev|]. intros old.
  eapply keeps_bind; [apply keeps_deref_dev|]. intros new.
  eapply keeps_bind with (Q := λ _, daemon_wf); [by apply keeps_lift|]. intros n.
  eapply keeps_bind with (Q := λ _, daemon_wf).
  { destruct (truthy live n); [|by apply keeps_ret].
    eapply keeps_bind with (Q := λ _, daemon_wf); [by apply keeps_lift|].
    intros o. by apply keeps_ret. }
  intros media_added.
  eapply keeps_bind with (Q := λ _, daemon_wf); [by apply keeps_lift|]. intros o.
  eapply keeps_bind with (Q := λ _, daemon_wf).
  { destruct (truthy live o); [|by apply keeps_ret].
    eapply keeps_bind with (Q := λ _, daemon_wf); [by apply keeps_lift|].
    intros n'. by apply keeps_ret. }
  intros media_removed.
  eapply keeps_bind with (Q := λ _, daemon_wf).
  - apply keeps_when. apply keeps_emit. by_evaluation.
  - intros ?. apply keeps_when. apply keeps_emit. by_evaluation.
Qed.

Lemma keeps_trigger event args :
  event ∈ event_names →
  keeps daemon_wf (trigger normpath live event args) (λ _, daemon_wf).
Proof.
  intros He. unfold trigger.
  eapply keeps_bind with (Q := λ _, daemon_wf); [|intros ?; by apply keeps_emit].
  case_decide; [|by apply keeps_ret].
  repeat match goal with
         | |- keeps _ (match ?x with _ => _ end) _ => destruct x
         end;
    try (by apply keeps_raise); apply keeps_on_device_changed.
Qed.

Lemma keeps_device_added object_path :
  keeps daemon_wf (_device_added normpath live object_path) (λ _, daemon_wf).
Proof.
  unfold _device_added.
  eapply keeps_bind; [apply keeps_update|]. intros new_state.
  eapply keeps_weaken; [apply keeps_trigger; by_evaluation|tauto|auto].
Qed.

Lemma keeps_device_removed object_path :
  keeps daemon_wf (_device_removed normpath live object_path) (λ _, daemon_wf).
Proof.
  unfold _device_removed.
  eapply keeps_bind with (Q := λ _, daemon_wf); [by apply keeps_gets|].
  intros old_state.
  eapply keeps_bind; [apply keeps_invalidate|]. intros ?.
  apply keeps_trigger; by_evaluation.
Qed.

Lemma keeps_device_changed object_path :
  keeps daemon_wf (_device_changed normpath live object_path) (λ _, daemon_wf).
Proof.
  unfold _device_changed.
  eapply keeps_bind with (Q := λ _, daemon_wf); [by apply keeps_gets|].
  intros old_state.
  eapply keeps_bind; [apply keeps_update|]. intros new_state.
  eapply keeps_weaken; [apply keeps_trigger; by_evaluation|tauto|auto].
Qed.

End Invariant.

(** ** The tables of the job handler *)

Lemma action_mapping_cases k action :
  _action_mapping !! k = Some action →
  (k, action) ∈ [ ("FilesystemMount", "mount"); ("FilesystemUnmount", "unmount");
                  ("LuksUnlock", "unlock"); ("LuksLock", "lock");
                  ("DriveDetach", "detach"); ("DriveEject", "eject") ].
Proof. apply elem_of_list_to_map_2. Qed.

Lemma event_mapping_cases action stem :
  _event_mapping !! action = Some stem →
  (action, stem) ∈ [ ("mount", "device_mount"); ("unmount", "device_unmount");
                     ("unlock", "device_unlock"); ("lock", "device_lock");
                     ("eject", "media_remov"); ("detach", "device_remov") ].
Proof. apply elem_of_list_to_map_2. Qed.

(** Every action of the first table has a stem in the second and a slot for
    its errors. *)
Lemma action_has_stem k action :
  _action_mapping !! k = Some action →
  ∃ stem, _event_mapping !! action = Some stem ∧ action ∈ dom initial_errors.
Proof.
  intros H. apply action_mapping_cases in H. cases_of H;
    (eexists; split; [ vm_compute; reflexivity | by_evaluation ]).
Qed.

Lemma stem_events action stem :
  _event_mapping !! action = Some stem →
  stem +:+ "ing" ∈ event_names ∧ stem +:+ "ed" ∈ event_names ∧
  stem +:+ "ing" ≠ "device_changed" ∧ stem +:+ "ed" ≠ "device_changed".
Proof.
  intros H. apply event_mapping_cases in H. cases_of H;
    (split_and!; [ by_evaluation | by_evaluation | done | done ]).
Qed.

Lemma job_failed_event : "job_failed" ∈ event_names.
Proof. by_evaluation. Qed.

(** ** The job handler, branch by branch *)

Section JobChanged.

Variable normpath : string → string.
Variable live : LiveSource.

Lemma trigger_plain event args self :
  event ≠ "device_changed" →
  trigger normpath live event args self = (Ok tt, publish event args self).
Proof.
  intros Hne. unfold trigger, mbind, M_bind, bind, emit, modify. simpl.
  by rewrite decide_False.
Qed.

(** Judging a job reads the state and leaves it as it is. *)
Lemma check_success_state job_id dev self :
  (check_success normpath live job_id dev self).2 = self.
Proof.
  unfold check_success, mbind, M_bind, bind, subscript.
  destruct (_check_success normpath live !! job_id) as [check|]; [|done].
  simpl. destruct dev as [r|]; simpl.
  - unfold mbind, M_bind, bind, deref. destruct (heap self !! r); [|done].
    simpl. unfold lift. by destruct (check _).
  - unfold lift. by destruct (check _).
Qed.

Lemma job_changed_unknown self p in_progress kind u c pct :
  _action_mapping !! effective_job_id self p in_progress kind = None →
  _device_job_changed normpath live p in_progress kind u c pct self = (Ok tt, self).
Proof.
  intros H. unfold _device_job_changed, mbind, M_bind, bind, gets. by rewrite H.
Qed.

Lemma job_changed_in_progress self p kind u c pct action stem :
  _action_mapping !! effective_job_id self p true kind = Some action →
  _event_mapping !! action = Some stem →
  _device_job_changed normpath live p true kind u c pct self =
    (Ok tt,
     set_jobs <[p := Build_Job (effective_job_id self p true kind) pct]>
       (publish (stem +:+ "ing") [ADev (get self p); APercentage pct] self)).
Proof.
  intros Ha Hs. unfold _device_job_changed, mbind, M_bind, bind, gets.
  rewrite Ha. unfold subscript. rewrite Hs. simpl.
  rewrite trigger_plain by (by apply (stem_events action)). done.
Qed.

(** A notification that the job is over: the outcome of [check_success]
    chooses the branch. *)
Lemma job_changed_terminal self p kind u c pct action stem :
  _action_mapping !! effective_job_id self p false kind = Some action →
  _event_mapping !! action = Some stem →
  _device_job_changed normpath live p false kind u c pct self =
    match (check_success normpath live (effective_job_id self p false kind)
             (get self p) self).1 with
    | Ok true =>
        del_job p (publish (stem +:+ "ed") [ADev (get self p)] self)
    | Ok false =>
        match _errors self !! action with
        | Some slot =>
            (Ok tt,
             publish "job_failed"
               [ADev (get self p); AStr ("device_" +:+ action);
                AStr (default "" (slot !! p))]
               (set_errors <[action := delete p slot]> self))
        | None => (Raise KeyError, self)
        end
    | Raise e => (Raise e, self)
    end.
Proof.
  intros Ha Hs. unfold _device_job_changed, mbind, M_bind, bind, gets.
  rewrite Ha. unfold subscript at 1. rewrite Hs. simpl.
  pose proof (check_success_state (effective_job_id self p false kind)
                (get self p) self) as Hst.
  destruct (check_success _ _ _ _ _) as [[[|]|e] self'] eqn:Hcheck;
    simpl in Hst; subst self'; simpl; [| |done].
  - rewrite trigger_plain by (by apply (stem_events action)). done.
  - unfold subscript. destruct (_errors self !! action) as [slot|]; [|done].
    simpl. rewrite trigger_plain by done. done.
Qed.

Lemma keeps_device_job_changed p in_progress kind u c pct :
  keeps daemon_wf (_device_job_changed normpath live p in_progress kind u c pct)
        (λ _, daemon_wf).
Proof.
  intros self Hwf.
  destruct (_action_mapping !! effective_job_id self p in_progress kind)
    as [action|] eqn:Ha; [|by rewrite job_changed_unknown].
  destruct (action_has_stem _ _ Ha) as (stem & Hs & Hdom).
  destruct (stem_events _ _ Hs) as (Hing & Hed & _).
  destruct in_progress.
  - rewrite (job_changed_in_progress _ _ _ _ _ _ _ _ Ha Hs).
    apply wf_set_jobs. by apply wf_emit.
  - rewrite (job_changed_terminal _ _ _ _ _ _ _ _ Ha Hs).
    destruct (check_success _ _ _ _ _).1 as [[|]|e]; [| |done].
    + unfold del_job, mbind, M_bind, bind, gets. simpl.
      destruct (_jobs self !! p); simpl.
      * apply wf_set_jobs. by apply wf_emit.
      * by apply wf_emit.
    + destruct (_errors self !! action) as [slot|] eqn:Hslot; [|done].
      apply wf_emit; [|apply job_failed_event].
      apply wf_set_errors; eauto.
Qed.

End JobChanged.

(** ** The invariant holds in every state of a run *)

Section Reachable.

Variable normpath : string → string.

Lemma keeps_cache_all live items n :
  keeps (λ self, daemon_wf self ∧ n ≤ length (heap self))%nat
        (cache_all normpath live items)
        (λ devices self,
           daemon_wf self ∧ (n ≤ length (heap self))%nat ∧
           ∀ p r, devices !! p = Some r → r < length (heap self)).
Proof.
  revert n. induction items as [|[p device] items IH]; intros n; simpl.
  - apply keeps_ret. intros self [Hwf Hn]. split_and!; [done..|].
    intros p r Hr. by rewrite lookup_empty in Hr.
  - eapply keeps_bind
      with (Q := λ c self, daemon_wf self ∧ (n ≤ length (heap self))%nat ∧ is_snapshot c).
    { apply keeps_lift; [tauto|]. intros c self Hc [Hwf Hn]. split_and!; [done..|].
      by eapply CachedDevice_init_snapshot. }
    intros c.
    eapply keeps_bind
      with (Q := λ r self, daemon_wf self ∧ (Nat.max n (S r) ≤ length (heap self))%nat).
    { apply keeps_alloc. intros self (Hwf & Hn & Hc). split; [by apply wf_alloc|].
      simpl. rewrite length_app. simpl. lia. }
    intros r.
    eapply keeps_bind; [apply (IH (Nat.max n (S r)))|].
    intros rest. apply keeps_ret. intros self (Hwf & Hn & Hrest).
    split_and!; [done|lia|].
    intros p' r' Hr'. apply lookup_insert_Some in Hr' as [[_ <-]|[_ Hr']]; [lia|eauto].
Qed.

Lemma keeps_sync live :
  keeps daemon_wf (_sync normpath live) (λ _, daemon_wf).
Proof.
  unfold _sync.
  eapply keeps_bind with (Q := λ _, daemon_wf); [by apply keeps_gets|].
  intros sniffer.
  eapply keeps_bind.
  { eapply keeps_weaken; [apply (keeps_cache_all live _ 0)| |].
    - intros self Hwf. split; [done|lia].
    - intros devices self H. exact H. }
  intros devices. apply keeps_modify. intros self ([Hd Hh He Hp] & _ & Hdev).
  split; simpl; auto.
Qed.

Lemma initial_wf :
  daemon_wf {| _sniffer := TheSniffer; _jobs := ∅; _devices := ∅;
               _errors := initial_errors; heap := []; published := [] |}.
Proof.
  split; simpl.
  - intros p r Hr. by rewrite lookup_empty in Hr.
  - intros r c Hc. by rewrite lookup_nil in Hc.
  - done.
  - intros e He. by apply elem_of_nil in He.
Qed.

Lemma keeps_handle live c :
  keeps daemon_wf (handle normpath live c) (λ _, daemon_wf).
Proof.
  destruct c; simpl.
  - apply keeps_device_added.
  - apply keeps_device_removed.
  - apply keeps_device_changed.
  - apply keeps_device_job_changed.
  - apply keeps_set_error.
Qed.

Lemma keeps_state {A} (m : M A) self :
  keeps daemon_wf m (λ _, daemon_wf) → daemon_wf self → daemon_wf (m self).2.
Proof. intros Hm Hwf. specialize (Hm self Hwf). by destruct (m self) as [[a|e] s]. Qed.

Lemma reachable_wf self : reachable normpath self → daemon_wf self.
Proof.
  induction 1 as [live self Hinit|live c self _ IH].
  - unfold Daemon_init in Hinit.
    pose proof (keeps_state _ _ (keeps_sync live) initial_wf) as Hwf.
    by rewrite Hinit in Hwf.
  - by apply keeps_state; [apply keeps_handle|].
Qed.

End Reachable.

(** ** Job notifications *)

Lemma daemon0_reachable : reachable id Examples.daemon0.
Proof. apply reachable_init with Examples.live0. vm_compute. reflexivity. Qed.

Lemma mounting_reachable : reachable id Examples.mounting.
Proof. apply reachable_call. apply daemon0_reachable. Qed.

(** C4: a job notification whose job kind (the recorded one when the job is
    over and the device has a job, the one of the notification otherwise)
    has no action is ignored: the handler returns, publishes nothing and
    leaves the jobs, the registry and the error slots as they were. *)
Theorem unknown_job_kind_is_ignored normpath live self object_path
    job_in_progress job_id by_user cancellable job_percentage :
  _action_mapping !! effective_job_id self object_path job_in_progress job_id = None →
  _device_job_changed normpath live object_path job_in_progress job_id
    by_user cancellable job_percentage self = (Ok tt, self).
Proof. apply job_changed_unknown. Qed.

Lemma unknown_job_kind_is_ignored_witness :
  _device_job_changed id Examples.live0 "/dev/sdb1" true "FilesystemCheck"
    false false 0 Examples.daemon0 = (Ok tt, Examples.daemon0).
Proof. apply unknown_job_kind_is_ignored. vm_compute. reflexivity. Defined.

(** C10: when a notification that a job is over carries a known job kind for
    a device without a recorded job, and the success predicate of the action
    holds on the cached state of the device, the handler publishes the
    event of the success and then raises [KeyError] on the deletion of the
    job. *)
Theorem success_without_job_raises normpath live self object_path job_id
    by_user cancellable job_percentage action :
  _jobs self !! object_path = None →
  _action_mapping !! job_id = Some action →
  (check_success normpath live job_id (get self object_path) self).1 = Ok true →
  ∃ stem, _event_mapping !! action = Some stem ∧
    _device_job_changed normpath live object_path false job_id
      by_user cancellable job_percentage self =
    (Raise KeyError, publish (stem +:+ "ed") [ADev (get self object_path)] self).
Proof.
  intros Hjob Ha Hcheck.
  assert (effective_job_id self object_path false job_id = job_id) as Heff.
  { unfold effective_job_id, recorded_job_id. by rewrite Hjob. }
  destruct (action_has_stem _ _ Ha) as (stem & Hs & _).
  exists stem. split; [done|].
  rewrite (job_changed_terminal normpath live self object_path job_id by_user
             cancellable job_percentage action stem) by (by rewrite ?Heff).
  rewrite Heff, Hcheck.
  unfold del_job, mbind, M_bind, bind, gets. simpl. by rewrite Hjob.
Qed.

Lemma success_without_job_raises_witness :
  ∃ stem, _event_mapping !! "unmount" = Some stem ∧
    _device_job_changed id Examples.live0 "/dev/sdb1" false "FilesystemUnmount"
      false false 1 Examples.daemon0 =
    (Raise KeyError,
     publish (stem +:+ "ed") [ADev (get Examples.daemon0 "/dev/sdb1")] Examples.daemon0).
Proof.
  apply success_without_job_raises; vm_compute; reflexivity.
Defined.

(** A job that has failed is not deleted: the jobs are as they were. *)
Lemma failed_job_keeps_jobs normpath live self object_path job_id
    by_user cancellable job_percentage action :
  _action_mapping !! effective_job_id self object_path false job_id = Some action →
  (check_success normpath live (effective_job_id self object_path false job_id)
     (get self object_path) self).1 = Ok false →
  _jobs (_device_job_changed normpath live object_path false job_id
           by_user cancellable job_percentage self).2 = _jobs self.
Proof.
  intros Ha Hcheck. destruct (action_has_stem _ _ Ha) as (stem & Hs & _).
  rewrite (job_changed_terminal normpath live self object_path job_id by_user
             cancellable job_percentage action stem) by done.
  rewrite Hcheck. by destruct (_errors self !! action).
Qed.

(** C3: the job of a device is recorded, the partition is not mounted, and
    the notification that the mount job is over arrives: [job_failed] is
    published and the job is still recorded afterwards. *)
Theorem failed_job_stays_recorded :
  let out := _device_job_changed id Examples.live0 "/dev/sdb1" false
               "FilesystemMount" false false 1 Examples.mounting in
  _jobs Examples.mounting !! "/dev/sdb1" = Some (Build_Job "FilesystemMount" 0) ∧
  out.1 = Ok tt ∧
  event_log out = ["device_mounting"; "job_failed"] ∧
  _jobs out.2 !! "/dev/sdb1" = Some (Build_Job "FilesystemMount" 0).
Proof. vm_compute. done. Qed.

(** C1, as stated, fails: the partition was mounted on the service since the
    registry was filled, and the notification that the mount job is over
    arrives.  The handler judges the entry of the registry and publishes
    [job_failed]; had it refreshed the entry, it would have published
    [device_mounted]. *)
Lemma job_judged_without_refresh :
  ¬ judged_after_refresh id Examples.live1 Examples.mounting
      "/dev/sdb1" "FilesystemMount" 1.
Proof. vm_compute. discriminate. Qed.

(** C1, amended: a notification that a job is over leaves the registry and
    its snapshots as they are, and the success predicate is judged on the
    entry the registry holds for the device at that time: the event of the
    success or [job_failed] is published according to it. *)
Theorem job_judged_on_cached_entry normpath live self object_path job_id
    by_user cancellable job_percentage action (success : bool) :
  reachable normpath self →
  _action_mapping !! effective_job_id self object_path false job_id = Some action →
  (check_success normpath live (effective_job_id self object_path false job_id)
     (get self object_path) self).1 = Ok success →
  let out := _device_job_changed normpath live object_path false job_id
               by_user cancellable job_percentage self in
  _devices out.2 = _devices self ∧ heap out.2 = heap self ∧
  ∃ stem, _event_mapping !! action = Some stem ∧
    published out.2 = published self ++
      [ if success
        then Build_Event (stem +:+ "ed") [ADev (get self object_path)]
        else Build_Event "job_failed"
               [ADev (get self object_path); AStr ("device_" +:+ action);
                AStr (default "" (error_slot self action object_path))] ].
Proof.
  intros Hreach Ha Hcheck out. subst out.
  destruct (action_has_stem _ _ Ha) as (stem & Hs & Hdom).
  rewrite (job_changed_terminal normpath live self object_path job_id by_user
             cancellable job_percentage action stem) by done.
  rewrite Hcheck. destruct success.
  - unfold del_job, mbind, M_bind, bind, gets. simpl.
    destruct (_jobs self !! object_path); simpl; eauto.
  - rewrite <- (wf_errors _ (reachable_wf _ _ Hreach)) in Hdom.
    apply elem_of_dom in Hdom as [slot Hslot].
    unfold error_slot. rewrite Hslot. simpl. eauto.
Qed.

Lemma job_judged_on_cached_entry_witness :
  let out := _device_job_changed id Examples.live1 "/dev/sdb1" false
               "FilesystemMount" false false 1 Examples.mounting in
  _devices out.2 = _devices Examples.mounting ∧
  heap out.2 = heap Examples.mounting ∧
  ∃ stem, _event_mapping !! "mount" = Some stem ∧
    published out.2 = published Examples.mounting ++
      [ Build_Event "job_failed"
          [ADev (get Examples.mounting "/dev/sdb1"); AStr ("device_" +:+ "mount");
           AStr (default "" (error_slot Examples.mounting "mount" "/dev/sdb1"))] ].
Proof.
  apply (job_judged_on_cached_entry id Examples.live1 Examples.mounting
           "/dev/sdb1" "FilesystemMount" false false 1 "mount" false).
  - apply mounting_reachable.
  - vm_compute. reflexivity.
  - vm_compute. reflexivity.
Defined.

(** ** The success predicates *)

Section Predicates.

Variable normpath : string → string.
Variable live : LiveSource.

Lemma snapshot_getattr c key :
  is_snapshot c → key ∈ property_names → key ∉ cached_device_properties →
  ∃ v, instance_dict c !! key = Some v ∧
       CachedDevice_getattr normpath live c key = Ok v.
Proof.
  intros [_ Hkeys] Hkey Hno. destruct (Hkeys key Hkey Hno) as [v Hv].
  exists v. split; [done|]. unfold CachedDevice_getattr.
  rewrite decide_False by done. by rewrite Hv.
Qed.

Lemma attribute_holds key dev :
  (∀ c, dev = Some c → is_snapshot c) →
  key ∈ property_names → key ∉ cached_device_properties →
  holds live (dev_getattr normpath live dev key) ↔ snapshot_is live key dev.
Proof.
  intros Hsnap Hkey Hno. destruct dev as [c|]; simpl.
  - destruct (snapshot_getattr c key (Hsnap c eq_refl) Hkey Hno) as (v & Hv & Hget).
    rewrite Hget. split.
    + intros (v' & [= <-] & Ht). by exists c, v.
    + intros (c' & v' & [= <-] & Hv' & Ht). exists v. split; [done|]. congruence.
  - split.
    + by intros (v & [=] & _).
    + by intros (c & v & [=] & _).
Qed.

Lemma dev_not_spec dev :
  (∀ c, dev = Some c → is_snapshot c) →
  ∃ b, dev_not normpath live dev = Ok b ∧ (b = true ↔ absent_or_invalid dev).
Proof.
  intros Hsnap. destruct dev as [c|]; simpl; [|by exists true].
  destruct (snapshot_bool normpath live c (Hsnap c eq_refl)) as (b & Hb & Hbool).
  rewrite Hbool. exists (negb b). split; [done|]. rewrite Hb.
  destruct b; simpl; split; congruence.
Qed.

Lemma not_dev_or_not_holds key dev :
  (∀ c, dev = Some c → is_snapshot c) →
  key ∈ property_names → key ∉ cached_device_properties →
  holds live (not_dev_or_not normpath live key dev) ↔
  absent_or_invalid dev ∨ ¬ snapshot_is live key dev.
Proof.
  intros Hsnap Hkey Hno. unfold not_dev_or_not.
  destruct (dev_not_spec dev Hsnap) as (b & -> & Hb). simpl.
  destruct b.
  - split; [intros _; left; by apply Hb|]. intros _. by exists (PyBool true).
  - assert (¬ absent_or_invalid dev) as Hpresent by (rewrite <- Hb; done).
    destruct dev as [c|]; [|by destruct Hpresent].
    destruct (snapshot_getattr c key (Hsnap c eq_refl) Hkey Hno) as (v & Hv & Hget).
    simpl. rewrite Hget. simpl. split.
    + intros (v' & [= <-] & Ht). right. intros (c' & v' & [= <-] & Hv' & Ht').
      simpl in Ht. rewrite Hv in Hv'. injection Hv' as <-. by rewrite Ht' in Ht.
    + intros [Habs|Hnot]; [done|]. eexists. split; [done|]. simpl.
      destruct (truthy live v) eqn:Ht; [|done].
      destruct Hnot. by exists c, v.
Qed.

Lemma detach_holds dev :
  (∀ c, dev = Some c → is_snapshot c) →
  holds live (PyBool <$> dev_not normpath live dev) ↔ absent_or_invalid dev.
Proof.
  intros Hsnap. destruct (dev_not_spec dev Hsnap) as (b & -> & Hb). simpl.
  rewrite <- Hb. split.
  - by intros (v & [= <-] & Ht).
  - intros ->. by exists (PyBool true).
Qed.

End Predicates.

(** C2: for every job kind with an action, the predicate of [_check_success]
    for the kind holds on a snapshot exactly when the table of the
    specification says the action has succeeded: mount when the snapshot is
    mounted, unmount when it is absent or invalid or not mounted, unlock
    when it is unlocked, lock when it is absent or invalid or not unlocked,
    eject when it is absent or invalid or has no media, detach when it is
    absent or invalid. *)
Theorem success_predicates_match_table normpath live job_id action dev :
  _action_mapping !! job_id = Some action →
  (∀ c, dev = Some c → is_snapshot c) →
  ∃ check, _check_success normpath live !! job_id = Some check ∧
    (holds live (check dev) ↔ spec_success live action dev).
Proof.
  intros Ha Hsnap. apply action_mapping_cases in Ha. cases_of Ha;
    (eexists; split; [reflexivity|]); unfold spec_success; simpl.
  - apply attribute_holds; [done|by_evaluation..].
  - apply not_dev_or_not_holds; [done|by_evaluation..].
  - apply attribute_holds; [done|by_evaluation..].
  - apply not_dev_or_not_holds; [done|by_evaluation..].
  - by apply detach_holds.
  - apply not_dev_or_not_holds; [done|by_evaluation..].
Qed.

Lemma success_predicates_match_table_witness :
  ∃ check, _check_success id Examples.live0 !! "DriveEject" = Some check ∧
    (holds Examples.live0 (check (heap Examples.daemon0 !! 0%nat)) ↔
     spec_success Examples.live0 "eject" (heap Examples.daemon0 !! 0%nat)).
Proof.
  apply success_predicates_match_table.
  - vm_compute. reflexivity.
  - intros c Hc.
    exact (wf_heap _ (reachable_wf id _ daemon0_reachable) 0%nat c Hc).
Defined.

(** ** Iteration over the registry *)

Section Iteration.

Variable normpath : string → string.
Variable live : LiveSource.

Lemma entry_bool self r :
  daemon_wf self → r < length (heap self) →
  ∃ c b, heap self !! r = Some c ∧ CachedDevice_bool normpath live c = Ok b ∧
         (b = true ↔ valid_entry self r).
Proof.
  intros Hwf Hr. destruct (lookup_lt_is_Some_2 _ _ Hr) as [c Hc].
  destruct (snapshot_bool normpath live c (wf_heap _ Hwf _ _ Hc)) as (b & Hb & Hbool).
  exists c, b. split_and!; [done..|]. split.
  - intros ->. by exists c.
  - intros (c' & Hc' & Hv). rewrite Hc in Hc'. injection Hc' as <-.
    rewrite Hb in Hv. by injection Hv.
Qed.

Lemma paths_of_spec self items :
  daemon_wf self → (∀ p r, (p, r) ∈ items → r < length (heap self)) →
  ∃ ps, paths_of normpath live items self = (Ok ps, self) ∧ sublist ps items.*1 ∧
        ∀ p, p ∈ ps ↔ ∃ r, (p, r) ∈ items ∧ valid_entry self r.
Proof.
  intros Hwf. induction items as [|[p r] items IH]; intros Hitems.
  - exists []. split_and!; [done..|]. intros p. split.
    + intros H. by apply elem_of_nil in H.
    + intros (r & H & _). by apply elem_of_nil in H.
  - destruct IH as (ps & Hps & Hsub & Hin).
    { intros p' r' H. apply (Hitems p'). by right. }
    destruct (entry_bool self r Hwf) as (c & b & Hc & Hb & Hvalid).
    { apply (Hitems p). by left. }
    exists (if b then p :: ps else ps). split_and!.
    + simpl. unfold mbind, M_bind, bind, deref, lift. rewrite Hc, Hb, Hps. done.
    + simpl. destruct b; by constructor.
    + intros p'. split.
      * intros H. destruct b.
        -- apply elem_of_cons in H as [->|H].
           ++ exists r. split; [by left|]. by apply Hvalid.
           ++ apply Hin in H as (r' & H & Hv). exists r'. split; [by right|done].
        -- apply Hin in H as (r' & H & Hv). exists r'. split; [by right|done].
      * intros (r' & H & Hv). apply elem_of_cons in H as [[= -> ->]|H].
        -- apply Hvalid in Hv as ->. by left.
        -- assert (p' ∈ ps) by (apply Hin; eauto). destruct b; [by right|done].
Qed.

Lemma filter_none_spec self devices :
  daemon_wf self → (∀ r, Some r ∈ devices → r < length (heap self)) →
  ∃ rs, filter_none normpath live devices self = (Ok rs, self) ∧
        ∀ r, r ∈ rs ↔ Some r ∈ devices ∧ valid_entry self r.
Proof.
  intros Hwf. induction devices as [|[r|] devices IH]; intros Hdev.
  - exists []. split; [done|]. intros r. split.
    + intros H. by apply elem_of_nil in H.
    + intros [H _]. by apply elem_of_nil in H.
  - destruct IH as (rs & Hrs & Hin).
    { intros r' H. apply Hdev. by right. }
    destruct (entry_bool self r Hwf) as (c & b & Hc & Hb & Hvalid).
    { apply Hdev. by left. }
    exists (if b then r :: rs else rs). split.
    + simpl. unfold mbind, M_bind, bind, deref, lift. rewrite Hc, Hb, Hrs. done.
    + intros r'. split.
      * intros H. destruct b.
        -- apply elem_of_cons in H as [->|H].
           ++ split; [by left|]. by apply Hvalid.
           ++ apply Hin in H as [H Hv]. split; [by right|done].
        -- apply Hin in H as [H Hv]. split; [by right|done].
      * intros [H Hv]. apply elem_of_cons in H as [[= ->]|H].
        -- apply Hvalid in Hv as ->. by left.
        -- assert (r' ∈ rs) by (by apply Hin). destruct b; [by right|done].
  - destruct IH as (rs & Hrs & Hin).
    { intros r' H. apply Hdev. by right. }
    exists rs. split; [done|]. intros r. rewrite Hin. split.
    + intros [H Hv]. split; [by right|done].
    + intros [H Hv]. apply elem_of_cons in H as [[=]|H]. done.
Qed.

End Iteration.

(** C5: in every state of a run, [paths] returns, once each, exactly the
    identifiers whose entry in the registry is a valid snapshot, and the
    iteration over the daemon returns exactly those entries; an identifier
    whose entry is invalid is not among them. *)
Theorem iteration_yields_valid_entries normpath live self :
  reachable normpath self →
  ∃ ps rs,
    paths normpath live self = (Ok ps, self) ∧
    iter normpath live self = (Ok rs, self) ∧
    NoDup ps ∧
    (∀ p, p ∈ ps ↔ ∃ r, _devices self !! p = Some r ∧ valid_entry self r) ∧
    (∀ r, r ∈ rs ↔ ∃ p, _devices self !! p = Some r ∧ valid_entry self r).
Proof.
  intros Hreach. pose proof (reachable_wf _ _ Hreach) as Hwf.
  destruct (paths_of_spec normpath live self (map_to_list (_devices self)) Hwf)
    as (ps & Hps & Hsub & Hin).
  { intros p r H. apply elem_of_map_to_list in H. by eapply wf_devices. }
  assert (∀ p, p ∈ ps ↔ ∃ r, _devices self !! p = Some r ∧ valid_entry self r) as Hin'.
  { intros p. rewrite Hin. by setoid_rewrite elem_of_map_to_list. }
  destruct (filter_none_spec normpath live self (get self <$> ps) Hwf)
    as (rs & Hrs & Hrin).
  { intros r H. apply list_elem_of_fmap in H as (p & Hp & _).
    symmetry in Hp. by eapply wf_devices. }
  exists ps, rs. split_and!; [| | |done|].
  - unfold paths, mbind, M_bind, bind, gets. done.
  - unfold iter, paths. unfold mbind, M_bind, bind, gets. simpl. rewrite Hps. done.
  - eapply sublist_NoDup; [|exact Hsub]. apply NoDup_fst_map_to_list.
  - intros r. rewrite Hrin. split.
    + intros [H Hv]. apply list_elem_of_fmap in H as (p & Hp & _). eauto.
    + intros (p & Hp & Hv). split; [|done].
      apply list_elem_of_fmap. exists p. split; [done|]. apply Hin'. eauto.
Qed.

Lemma iteration_yields_valid_entries_witness :
  ∃ ps rs,
    paths id Examples.live0 Examples.mounting = (Ok ps, Examples.mounting) ∧
    iter id Examples.live0 Examples.mounting = (Ok rs, Examples.mounting) ∧
    NoDup ps ∧
    (∀ p, p ∈ ps ↔ ∃ r, _devices Examples.mounting !! p = Some r ∧
                        valid_entry Examples.mounting r) ∧
    (∀ r, r ∈ rs ↔ ∃ p, _devices Examples.mounting !! p = Some r ∧
                        valid_entry Examples.mounting r).
Proof.
  apply iteration_yields_valid_entries. apply mounting_reachable.
Defined.

(** ** The error slots *)

Lemma set_error_registers self device action message :
  is_Some (_errors self !! action) →
  (set_error device action message self).1 = Ok tt ∧
  error_slot (set_error device action message self).2 action device = Some message.
Proof.
  intros [slot Hslot]. unfold set_error, mbind, M_bind, bind, gets, subscript.
  rewrite Hslot. simpl. split; [done|]. unfold error_slot. simpl.
  rewrite lookup_insert_eq. simpl. by rewrite lookup_insert_eq.
Qed.

(** C6: when the job of a device is over and has failed for an action, the
    [job_failed] event carries the message kept in the slot of the action
    and the device, or the empty string when there is none; afterwards the
    slot is empty and every other slot is as it was.  The message kept in a
    slot is the one [set_error] was last called with. *)
Theorem error_slot_consumed_once normpath live self object_path job_id
    by_user cancellable job_percentage action :
  reachable normpath self →
  _action_mapping !! effective_job_id self object_path false job_id = Some action →
  (check_success normpath live (effective_job_id self object_path false job_id)
     (get self object_path) self).1 = Ok false →
  let out := _device_job_changed normpath live object_path false job_id
               by_user cancellable job_percentage self in
  out.1 = Ok tt ∧
  published out.2 = published self ++
    [ Build_Event "job_failed"
        [ADev (get self object_path); AStr ("device_" +:+ action);
         AStr (default "" (error_slot self action object_path))] ] ∧
  error_slot out.2 action object_path = None ∧
  (∀ a d, (a, d) ≠ (action, object_path) → error_slot out.2 a d = error_slot self a d) ∧
  (∀ message,
     error_slot (set_error object_path action message self).2 action object_path
       = Some message).
Proof.
  intros Hreach Ha Hcheck out. subst out.
  pose proof (reachable_wf _ _ Hreach) as Hwf.
  destruct (action_has_stem _ _ Ha) as (stem & Hs & Hdom).
  rewrite <- (wf_errors _ Hwf) in Hdom. apply elem_of_dom in Hdom as [slot Hslot].
  rewrite (job_changed_terminal normpath live self object_path job_id by_user
             cancellable job_percentage action stem) by done.
  rewrite Hcheck, Hslot. simpl. split_and!.
  - done.
  - unfold error_slot. by rewrite Hslot.
  - unfold error_slot. simpl. rewrite lookup_insert_eq. simpl.
    by rewrite lookup_delete_eq.
  - intros a d Hne. unfold error_slot. simpl.
    destruct (decide (a = action)) as [->|Hna].
    + rewrite lookup_insert_eq, Hslot. simpl.
      rewrite lookup_delete_ne; [done|]. congruence.
    + by rewrite lookup_insert_ne.
  - intros message. apply set_error_registers. eauto.
Qed.

Lemma error_slot_consumed_once_witness :
  let self := (set_error "/dev/sdb1" "mount" "wrong fs type" Examples.mounting).2 in
  let out := _device_job_changed id Examples.live0 "/dev/sdb1" false
               "FilesystemMount" false false 1 self in
  out.1 = Ok tt ∧
  published out.2 = published self ++
    [ Build_Event "job_failed"
        [ADev (get self "/dev/sdb1"); AStr ("device_" +:+ "mount");
         AStr (default "" (error_slot self "mount" "/dev/sdb1"))] ] ∧
  error_slot out.2 "mount" "/dev/sdb1" = None ∧
  (∀ a d, (a, d) ≠ ("mount", "/dev/sdb1") → error_slot out.2 a d = error_slot self a d) ∧
  (∀ message,
     error_slot (set_error "/dev/sdb1" "mount" message self).2 "mount" "/dev/sdb1"
       = Some message).
Proof.
  apply (error_slot_consumed_once id Examples.live0
           (set_error "/dev/sdb1" "mount" "wrong fs type" Examples.mounting).2
           "/dev/sdb1" "FilesystemMount" false false 1 "mount").
  - apply (reachable_call id Examples.live0
             (SetError "/dev/sdb1" "mount" "wrong fs type")).
    apply mounting_reachable.
  - vm_compute. reflexivity.
  - vm_compute. reflexivity.
Defined.

(** ** Invalidation *)

(** C7: for an identifier of the registry, [_invalidate] raises
    [RecursionError]: [copy] asks the instance it has just made, which has
    no [_device] yet, for [__setstate__], and [__getattr__] never returns.
    Nothing is stored before that, so the daemon is as it was: the registry
    returns the entry it returned before, with the validity it had, and no
    invalid copy exists. *)
Theorem invalidate_raises_in_copy normpath live self object_path r :
  reachable normpath self →
  get self object_path = Some r →
  let out := _invalidate normpath live object_path self in
  out.1 = Raise RecursionError ∧ out.2 = self.
Proof.
  intros Hreach Hr out. subst out.
  pose proof (reachable_wf _ _ Hreach) as Hwf.
  destruct (lookup_lt_is_Some_2 (heap self) r) as [old Hold].
  { by eapply wf_devices. }
  by rewrite (invalidate_known normpath live self object_path r old).
Qed.

Lemma invalidate_raises_in_copy_witness :
  let out := _invalidate id Examples.live0 "/dev/sdb1" Examples.daemon0 in
  out.1 = Raise RecursionError ∧ out.2 = Examples.daemon0.
Proof.
  eapply invalidate_raises_in_copy.
  - apply daemon0_reachable.
  - vm_compute. reflexivity.
Defined.

(** ** The names of the events *)

Lemma same_elements (l1 l2 : list string) :
  Forall (λ x, x ∈ l2) l1 → Forall (λ x, x ∈ l1) l2 → ∀ x, x ∈ l1 ↔ x ∈ l2.
Proof.
  intros H1 H2 x. rewrite Forall_forall in H1. rewrite Forall_forall in H2.
  split; auto.
Qed.

(** C8, as stated, fails: [device_adding] is a name of the emitter of the
    daemon and is not among the seventeen names. *)
Lemma event_names_more_than_listed :
  ¬ (∀ name, name ∈ event_names ↔ name ∈ spec_event_names).
Proof.
  intros H. assert ("device_adding" ∈ spec_event_names) as Hin.
  { apply H. by_evaluation. }
  revert Hin. by_evaluation.
Qed.

(** The events the daemon publishes in a run have names of its emitter;
    [device_removing] is the event of a detach job in progress. *)
Lemma published_names_are_event_names normpath self e :
  reachable normpath self → e ∈ published self → event_name e ∈ event_names.
Proof. intros Hreach. apply wf_published. by eapply reachable_wf. Qed.

(** C8, amended: the names the daemon makes its emitter with are exactly
    nineteen, each once: the seventeen listed, [device_adding] and
    [device_removing]. *)
Theorem event_names_are_nineteen :
  (∀ name, name ∈ event_names ↔
           name ∈ spec_event_names ++ ["device_adding"; "device_removing"]) ∧
  NoDup event_names ∧ length event_names = 19%nat.
Proof.
  split_and!.
  - apply same_elements; by_evaluation.
  - by_evaluation.
  - reflexivity.
Qed.

(** ** The devices a cached device refers to *)

Section Relations.

Variable normpath : string → string.
Variable live : LiveSource.

(** An overloaded property is looked up at each access, by the object path
    kept for it, in the wrapper the snapshot was made from; the state of the
    daemon has no part in it. *)
Lemma relation_is_looked_up c key :
  key ∈ cached_device_properties →
  CachedDevice_getattr normpath live c key =
    Sniffer_getitem (_daemon c) (default PyNone (instance_dict c !! ("_" +:+ key))).
Proof. intros Hkey. unfold CachedDevice_getattr. by rewrite decide_True. Qed.

(** A property that is not overloaded is read from the snapshot. *)
Lemma scalar_is_cached c key v :
  key ∉ cached_device_properties → instance_dict c !! key = Some v →
  CachedDevice_getattr normpath live c key = Ok v.
Proof.
  intros Hkey Hv. unfold CachedDevice_getattr. rewrite decide_False by done.
  by rewrite Hv.
Qed.

End Relations.

(** C9: the registry was filled while the drive had a medium, and the medium
    was then taken out.  The registry still holds, for the drive, a snapshot
    with a medium; the [partition_slave] of the snapshot of the partition is
    not this entry of the registry but an online device of the sniffer, and
    it reads from the service that there is no medium. *)
Theorem relation_is_an_online_device :
  ∃ partition drive,
    get Examples.daemon0 "/dev/sdb1" = Some 0%nat ∧
    heap Examples.daemon0 !! 0%nat = Some partition ∧
    get Examples.daemon0 "/dev/sdb" = Some 1%nat ∧
    heap Examples.daemon0 !! 1%nat = Some drive ∧
    CachedDevice_getattr id Examples.live2 drive "has_media" = Ok (PyBool true) ∧
    CachedDevice_getattr id Examples.live2 partition "partition_slave" =
      Ok (PyOnline (Sniffer_get TheSniffer "/dev/sdb")) ∧
    OnlineDevice_getattr id Examples.live2 (Sniffer_get TheSniffer "/dev/sdb") "has_media" =
      Ok (PyBool false).
Proof.
  destruct (heap Examples.daemon0 !! 0%nat) as [partition|] eqn:Hp;
    [|by vm_compute in Hp].
  destruct (heap Examples.daemon0 !! 1%nat) as [drive|] eqn:Hd;
    [|by vm_compute in Hd].
  exists partition, drive.
  vm_compute in Hp. vm_compute in Hd.
  injection Hp as <-. injection Hd as <-.
  vm_compute. done.
Qed.

(** * Further properties *)

(** ** What a snapshot holds *)

Lemma assoc_elem {A} key (l : list (string * A)) a :
  assoc key l = Some a → (key, a) ∈ l.
Proof.
  induction l as [|[k b] l IH]; simpl; [done|].
  case_decide as Hk.
  - intros [= ->]. subst k. by left.
  - intros H. right. by apply IH.
Qed.

Lemma assoc_is_Some {A} key (l : list (string * A)) :
  key ∈ l.*1 → is_Some (assoc key l).
Proof.
  induction l as [|[k b] l IH]; simpl.
  - intros H. by apply elem_of_nil in H.
  - intros H. case_decide as Hk; [eauto|].
    apply elem_of_cons in H as [->|H]; [done|by apply IH].
Qed.

Lemma setattr_slot c key v s :
  instance_dict (CachedDevice_setattr c key v) !! s =
    if decide (slot_of key = s) then Some (kept_value key v)
    else instance_dict c !! s.
Proof.
  unfold CachedDevice_setattr, slot_of, kept_value.
  case_decide; apply store_lookup.
Qed.

Lemma setattr_fields c key v :
  _device (CachedDevice_setattr c key v) = _device c ∧
  _daemon (CachedDevice_setattr c key v) = _daemon c.
Proof. unfold CachedDevice_setattr. by case_decide. Qed.

Lemma cache_properties_content device members :
  NoDup (slot_of <$> members.*1) →
  ∀ self c, cache_properties device members self = Ok c →
    _device c = _device self ∧ _daemon c = _daemon self ∧
    (∀ s, s ∉ slot_of <$> members.*1 → instance_dict c !! s = instance_dict self !! s) ∧
    (∀ key prop, (key, prop) ∈ members →
       ∃ v, except_dbus (prop device) PyNone = Ok v ∧
            instance_dict c !! slot_of key = Some (kept_value key v)).
Proof.
  induction members as [|[k p] members IH]; intros Hnd self c Hc.
  - simpl in Hc. injection Hc as <-. split_and!; [done..|].
    intros key prop H. by apply elem_of_nil in H.
  - simpl in Hnd. apply NoDup_cons in Hnd as [Hk Hnd]. simpl in Hc.
    destruct (except_dbus (p device) PyNone) as [v|e] eqn:Hv; simpl in Hc; [|done].
    destruct (IH Hnd _ _ Hc) as (Hdev & Hdae & Hframe & Hmem).
    destruct (setattr_fields self k v) as [Hd1 Hd2].
    split_and!; [congruence..| |].
    + intros s Hs. simpl in Hs. apply not_elem_of_cons in Hs as [Hsk Hs].
      rewrite (Hframe s Hs), setattr_slot. by rewrite decide_False.
    + intros key prop H. apply elem_of_cons in H as [[= -> ->]|H]; [|eauto].
      exists v. split; [done|]. rewrite (Hframe _ Hk), setattr_slot.
      by rewrite decide_True.
Qed.

Lemma cache_properties_returns device members self :
  (∀ key prop, (key, prop) ∈ members → ∃ v, except_dbus (prop device) PyNone = Ok v) →
  ∃ c, cache_properties device members self = Ok c.
Proof.
  revert self. induction members as [|[k p] members IH]; intros self H; simpl; [eauto|].
  destruct (H k p) as [v ->]; [by left|]. simpl. apply IH.
  intros key prop Hin. apply (H key prop). by right.
Qed.

Lemma property_slots_distinct : NoDup (slot_of <$> property_names).
Proof. by_evaluation. Qed.

Lemma is_valid_slot key :
  key ∈ property_names → slot_of key = "is_valid" → key = "is_valid".
Proof.
  assert (Forall (λ k, slot_of k = "is_valid" → k = "is_valid") property_names) as H
    by by_evaluation.
  rewrite Forall_forall in H. apply H.
Qed.

Section SnapshotContent.

Variable normpath : string → string.
Variable live : LiveSource.

Lemma init_content device c :
  CachedDevice_init normpath live device = Ok c →
  _device c = device ∧ _daemon c = udisks device ∧
  ∀ key prop, (key, prop) ∈ OnlineDevice_properties normpath live →
    ∃ v, except_dbus (prop device) PyNone = Ok v ∧
         instance_dict c !! slot_of key = Some (kept_value key v).
Proof.
  unfold CachedDevice_init. intros Hc.
  destruct (cache_properties _ _ _) as [self|e] eqn:Hself; simpl in Hc; [|done].
  injection Hc as <-.
  destruct (cache_properties_content device (OnlineDevice_properties normpath live))
    with (1 := eq_ind_r (λ l, NoDup (slot_of <$> l)) property_slots_distinct
                 (OnlineDevice_properties_names normpath live))
         (2 := Hself) as (Hdev & Hdae & _ & Hmem).
  split_and!; [done..|].
  intros key prop Hin. destruct (Hmem key prop Hin) as (v & Hv & Hslot).
  rewrite store_lookup. case_decide as Hk; [|by exists v].
  assert (key = "is_valid") as ->.
  { apply is_valid_slot; [|done].
    rewrite <- (OnlineDevice_properties_names normpath live).
    apply list_elem_of_fmap. by exists (key, prop). }
  exists v. split; [done|].
  assert (prop = λ self, Ok (PyBool (is_valid live self))) as ->.
  { revert Hin. unfold OnlineDevice_properties.
    rewrite !elem_of_cons, elem_of_nil.
    intros H. repeat destruct H as [H|H]; try discriminate H; try done.
    by injection H. }
  simpl in Hv. injection Hv as <-. done.
Qed.

End SnapshotContent.

Create HintDb online.
#[local] Hint Unfold of_bool of_str of_opt_bool of_opt_device
  device_file device_presentation drive root has_media id_label id_type
  in_use recursion_limit is_block is_crypto is_detachable is_ejectable
  is_external is_filesystem is_ignored is_toplevel is_unlocked is_valid
  luks_cleartext_holder luks_cleartext_slave mount_paths partition_slave
  is_systeminternal is_luks is_luks_cleartext is_mounted is_partition_table
  is_partition is_drive id_uuid id_usage property : online.

Section SnapshotValues.

Variable normpath : string → string.
Variable live : LiveSource.

Lemma getattr_property device key :
  key ∈ property_names →
  ∃ prop, (key, prop) ∈ OnlineDevice_properties normpath live ∧
          OnlineDevice_getattr normpath live device key = prop device.
Proof.
  intros Hkey. rewrite <- (OnlineDevice_properties_names normpath live) in Hkey.
  destruct (assoc_is_Some _ _ Hkey) as [prop Hprop]. exists prop.
  split; [by apply assoc_elem|]. unfold OnlineDevice_getattr. by rewrite Hprop.
Qed.

(** Every property of a device without an object raises the exception of
    the device, but for [is_block] and [is_valid]. *)
Lemma vanished_property device key prop :
  objects live !! object_path device = None →
  (key, prop) ∈ OnlineDevice_properties normpath live →
  except_dbus (prop device) PyNone = Ok (vanished_value key).
Proof.
  intros Hnone. unfold OnlineDevice_properties.
  rewrite !elem_of_cons, elem_of_nil.
  intros H. repeat destruct H as [H|H]; try done; injection H as -> ->;
    unfold vanished_value;
    repeat (autounfold with online; simpl; rewrite ?Hnone); reflexivity.
Qed.

End SnapshotValues.

Lemma kept_vanished key : kept_value key (vanished_value key) = vanished_value key.
Proof.
  unfold kept_value, vanished_value.
  destruct (decide (key ∈ cached_device_properties)) as [Hrel|]; [|done].
  destruct (decide (key = "is_block")) as [->|]; [exfalso; revert Hrel; by_evaluation|].
  destruct (decide (key = "is_valid")) as [->|]; [exfalso; revert Hrel; by_evaluation|].
  done.
Qed.

Lemma vanished_init normpath live device :
  objects live !! object_path device = None →
  ∃ c, CachedDevice_init normpath live device = Ok c ∧
       ∀ key, key ∈ property_names →
              instance_dict c !! slot_of key = Some (vanished_value key).
Proof.
  intros Hnone.
  destruct (cache_properties_returns device (OnlineDevice_properties normpath live)
              {| _device := device; _daemon := udisks device; instance_dict := ∅ |})
    as [self Hself].
  { intros key prop Hin. eexists. by eapply vanished_property. }
  assert (CachedDevice_init normpath live device =
          Ok (store "is_valid" (PyBool (is_valid live device)) self)) as Hc.
  { unfold CachedDevice_init. by rewrite Hself. }
  eexists. split; [exact Hc|].
  intros key Hkey.
  destruct (getattr_property normpath live device key Hkey) as (prop & Hin & _).
  destruct (init_content normpath live device _ Hc) as (_ & _ & Hmem).
  destruct (Hmem key prop Hin) as (v & Hv & Hslot).
  rewrite Hslot. rewrite (vanished_property normpath live device key prop Hnone Hin) in Hv.
  injection Hv as <-. by rewrite kept_vanished.
Qed.

(** X1: the snapshot of a device that has no object on the service is made
    without an exception; it holds [None] for every property and for every
    device it refers to, but [True] for [is_block] and [False] for
    [is_valid]. *)
Theorem vanished_device_snapshot normpath live device :
  objects live !! object_path device = None →
  ∃ c, CachedDevice_init normpath live device = Ok c ∧
       ∀ key, key ∈ property_names →
              instance_dict c !! slot_of key = Some (vanished_value key).
Proof. apply vanished_init. Qed.

Lemma vanished_device_snapshot_witness :
  ∃ c, CachedDevice_init id Examples.live0 (Sniffer_get TheSniffer "/dev/sdc") = Ok c ∧
       ∀ key, key ∈ property_names →
              instance_dict c !! slot_of key = Some (vanished_value key).
Proof. apply vanished_device_snapshot. vm_compute. reflexivity. Defined.

(** X2: a property that is not overloaded reads, on a snapshot and whatever
    the service has become, what the property of the online device was
    when the snapshot was made, and [None] if it raised the exception of
    the device then. *)
Theorem snapshot_keeps_the_values normpath live device c key :
  CachedDevice_init normpath live device = Ok c →
  key ∈ property_names → key ∉ cached_device_properties →
  ∀ live', CachedDevice_getattr normpath live' c key =
           except_dbus (OnlineDevice_getattr normpath live device key) PyNone.
Proof.
  intros Hc Hkey Hrel live'.
  destruct (getattr_property normpath live device key Hkey) as (prop & Hin & ->).
  destruct (init_content normpath live device c Hc) as (_ & _ & Hmem).
  destruct (Hmem key prop Hin) as (v & -> & Hslot).
  unfold slot_of, kept_value in Hslot. rewrite !decide_False in Hslot by done.
  by apply scalar_is_cached.
Qed.

Lemma snapshot_keeps_the_values_witness :
  ∃ c, CachedDevice_init id Examples.live0 (Sniffer_get TheSniffer "/dev/sdb1") = Ok c ∧
  ∀ live', CachedDevice_getattr id live' c "is_mounted" =
           except_dbus (OnlineDevice_getattr id Examples.live0
                          (Sniffer_get TheSniffer "/dev/sdb1") "is_mounted") PyNone.
Proof.
  destruct (CachedDevice_init id Examples.live0 (Sniffer_get TheSniffer "/dev/sdb1"))
    as [c|e] eqn:Hc; [|by vm_compute in Hc].
  exists c. split; [done|].
  apply snapshot_keeps_the_values; [exact Hc|by_evaluation..].
Defined.

(** X3: an overloaded property ([drive], [partition_slave],
    [luks_cleartext_slave], [luks_cleartext_holder]) that was a device when
    the snapshot was made reads, on the snapshot and whatever the service
    has become, an online device of the same service wrapper with the same
    object path: the path is kept, the device is made anew at each access. *)
Theorem snapshot_keeps_the_paths normpath live device c key d :
  CachedDevice_init normpath live device = Ok c →
  key ∈ cached_device_properties →
  OnlineDevice_getattr normpath live device key = Ok (PyOnline d) →
  ∀ live', CachedDevice_getattr normpath live' c key =
           Ok (PyOnline (Sniffer_get (udisks device) (object_path d))).
Proof.
  intros Hc Hrel Hd live'.
  assert (key ∈ property_names) as Hkey.
  { assert (Forall (λ k, k ∈ property_names) cached_device_properties) as H
      by by_evaluation.
    rewrite Forall_forall in H. by apply H. }
  destruct (getattr_property normpath live device key Hkey) as (prop & Hin & Hprop).
  destruct (init_content normpath live device c Hc) as (_ & Hdae & Hmem).
  destruct (Hmem key prop Hin) as (v & Hv & Hslot).
  rewrite Hprop in Hd. rewrite Hd in Hv. injection Hv as <-.
  unfold slot_of, kept_value in Hslot. rewrite !decide_True in Hslot by done.
  rewrite relation_is_looked_up by done. rewrite Hslot, Hdae. done.
Qed.

Lemma snapshot_keeps_the_paths_witness :
  ∃ c, CachedDevice_init id Examples.live0 (Sniffer_get TheSniffer "/dev/sdb1") = Ok c ∧
  ∀ live', CachedDevice_getattr id live' c "partition_slave" =
           Ok (PyOnline (Sniffer_get TheSniffer "/dev/sdb")).
Proof.
  destruct (CachedDevice_init id Examples.live0 (Sniffer_get TheSniffer "/dev/sdb1"))
    as [c|e] eqn:Hc; [|by vm_compute in Hc].
  exists c. split; [done|].
  apply (snapshot_keeps_the_paths id Examples.live0 (Sniffer_get TheSniffer "/dev/sdb1")
           c "partition_slave" (Sniffer_get TheSniffer "/dev/sdb") Hc).
  - by_evaluation.
  - vm_compute. reflexivity.
Defined.

(** ** The drive of a device *)

Lemma online_eq (d1 d2 : OnlineDevice) : object_path d1 = object_path d2 → d1 = d2.
Proof. destruct d1 as [[] p1], d2 as [[] p2]. simpl. by intros ->. Qed.

(** Among more elements of a set than the set has, two are the same. *)
Lemma pigeonhole (l : list string) (X : gset string) :
  (∀ x, x ∈ l → x ∈ X) → size X < length l →
  ∃ i j x, i < j ∧ l !! i = Some x ∧ l !! j = Some x.
Proof.
  revert X. induction l as [|a l IH]; intros X Hin Hsize; simpl in Hsize; [lia|].
  destruct (decide (a ∈ l)) as [Ha|Ha].
  - apply list_elem_of_lookup in Ha as [j Hj].
    exists 0%nat, (S j), a. split_and!; [lia|done|done].
  - destruct (IH (X ∖ {[a]})) as (i & j & x & Hij & Hi & Hj).
    + intros x Hx. apply elem_of_difference. split; [apply Hin; by right|].
      rewrite elem_of_singleton. intros ->. done.
    + assert (a ∈ X) as HaX by (apply Hin; by left).
      rewrite size_difference by (by apply singleton_subseteq_l).
      rewrite size_singleton.
      assert (size X ≠ 0)%nat by (intros H0; apply size_empty_inv in H0;
                                   by apply (not_elem_of_empty (C := gset string) a), H0).
      lia.
    + exists (S i), (S j), x. split_and!; [lia|done|done].
Qed.

Section Drive.

Variable live : LiveSource.

Lemma drive_rec_step n self :
  drive_rec live (S n) self =
    match objects live !! object_path self with
    | Some _ =>
        match container live self with
        | Some s => drive_rec live n s
        | None => Ok self
        end
    | None => Raise DBusException
    end.
Proof.
  simpl. unfold container, is_partition, partition_slave, is_luks_cleartext,
    luks_cleartext_slave, is_partition, is_luks_cleartext, property.
  destruct (objects live !! object_path self) as [bag|]; [|done]. simpl.
  destruct (DeviceIsPartition bag); simpl; [done|].
  by destruct (DeviceIsLuksCleartext bag).
Qed.

Lemma container_has_object self s :
  container live self = Some s → is_Some (objects live !! object_path self).
Proof. unfold container. destruct (objects live !! object_path self); [eauto|done]. Qed.

(** [drive] runs out of depth exactly when the device has an ancestor that
    many steps up. *)
Lemma drive_rec_ancestor n self :
  drive_rec live n self = Raise RecursionError ↔ is_Some (ancestor live n self).
Proof.
  revert self. induction n as [|n IH]; intros self.
  - simpl. split; eauto.
  - rewrite drive_rec_step. simpl.
    destruct (container live self) as [s|] eqn:Hs; simpl.
    + destruct (container_has_object _ _ Hs) as [bag ->]. apply IH.
    + destruct (objects live !! object_path self); split; try done;
        by intros [? ?].
Qed.

Lemma drive_rec_more n self :
  drive_rec live n self ≠ Raise RecursionError →
  ∀ m, (n ≤ m)%nat → drive_rec live m self = drive_rec live n self.
Proof.
  revert self. induction n as [|n IH]; intros self Hr m Hm; [done|].
  destruct m as [|m]; [lia|]. rewrite !drive_rec_step in *.
  destruct (objects live !! object_path self); [|done].
  destruct (container live self) as [s|]; [|done].
  apply IH; [done|lia].
Qed.

Lemma ancestor_add i k self :
  ancestor live (i + k) self = x ← ancestor live i self; ancestor live k x.
Proof.
  revert self. induction i as [|i IH]; intros self; simpl; [done|].
  destruct (container live self) as [s|]; simpl; [apply IH|done].
Qed.

Lemma ancestor_less i k self :
  is_Some (ancestor live (i + k) self) → is_Some (ancestor live i self).
Proof. rewrite ancestor_add. destruct (ancestor live i self); [eauto|by intros [? ?]]. Qed.

Lemma ancestor_loop p x :
  (0 < p)%nat → ancestor live p x = Some x → ∀ m, is_Some (ancestor live m x).
Proof.
  intros Hp Hloop m.
  assert (∀ k, ancestor live (k * p) x = Some x) as Hmul.
  { induction k as [|k IH]; [done|]. simpl. rewrite ancestor_add, Hloop. apply IH. }
  apply (ancestor_less m (m * p - m)).
  replace (m + (m * p - m))%nat with (m * p)%nat by nia. rewrite Hmul. eauto.
Qed.

(** The ancestors of a device as far up as there are objects and one more:
    one of them comes twice, so the device has ancestors without end. *)
Lemma ancestors_without_end self :
  is_Some (ancestor live (recursion_limit live) self) →
  ∀ m, is_Some (ancestor live m self).
Proof.
  unfold recursion_limit. set (N := size (objects live)). intros Hlimit.
  assert (∀ k, (k ≤ S N)%nat → is_Some (ancestor live k self)) as Hall.
  { intros k Hk. apply (ancestor_less k (S N - k)).
    by replace (k + (S N - k))%nat with (S N) by lia. }
  set (node k := default self (ancestor live k self)).
  assert (∀ k, (k ≤ S N)%nat → ancestor live k self = Some (node k)) as Hnode.
  { intros k Hk. unfold node. by destruct (Hall k Hk) as [x ->]. }
  destruct (pigeonhole ((λ k, object_path (node k)) <$> seq 0 (S N)) (dom (objects live)))
    as (i & j & x & Hij & Hi & Hj).
  - intros x Hx. apply list_elem_of_fmap in Hx as (k & -> & Hk).
    apply elem_of_seq in Hk. apply elem_of_dom.
    assert (is_Some (container live (node k))) as [s Hs].
    { pose proof (Hall (S k) ltac:(lia)) as Hsk.
      replace (S k) with (k + 1)%nat in Hsk by lia.
      rewrite ancestor_add, (Hnode k) in Hsk by lia. simpl in Hsk.
      destruct (container live (node k)); [eauto|by destruct Hsk]. }
    by eapply container_has_object.
  - rewrite length_fmap, length_seq, size_dom. fold N. lia.
  - rewrite list_lookup_fmap in Hi, Hj.
    destruct (seq 0 (S N) !! i) as [i'|] eqn:Hi'; [|done].
    destruct (seq 0 (S N) !! j) as [j'|] eqn:Hj'; [|done].
    apply lookup_seq in Hi' as [-> Hi']. apply lookup_seq in Hj' as [-> Hj'].
    simpl in Hi, Hj. injection Hi as Hi. injection Hj as Hj.
    assert (node i = node j) as Heq by (apply online_eq; congruence).
    assert (ancestor live (j - i) (node i) = Some (node i)) as Hloop.
    { pose proof (Hnode j ltac:(lia)) as Hnj.
      replace j with (i + (j - i))%nat in Hnj at 1 by lia.
      rewrite ancestor_add, (Hnode i) in Hnj by lia. simpl in Hnj. by rewrite Heq at 2. }
    intros m. apply (ancestor_less m i). rewrite Nat.add_comm, ancestor_add.
    rewrite (Hnode i) by lia. simpl.
    apply (ancestor_loop (j - i)); [lia|done].
Qed.

End Drive.

(** X4: when [drive] returns a device, that device has an object on the
    service and is neither a partition nor a cleartext device, and it is its
    own drive. *)
Theorem drive_is_a_root live self d :
  drive live self = Ok d →
  is_valid live d = true ∧ is_partition live d = Ok false ∧
  is_luks_cleartext live d = Ok false ∧ drive live d = Ok d.
Proof.
  unfold drive. generalize (recursion_limit live) at 1. intros n. revert self.
  induction n as [|n IH]; intros self Hd; [done|].
  rewrite drive_rec_step in Hd.
  destruct (objects live !! object_path self) as [bag|] eqn:Hbag; [|done].
  destruct (container live self) as [s|] eqn:Hs; [by eapply IH|].
  injection Hd as <-. unfold container in Hs. rewrite Hbag in Hs.
  unfold is_valid, is_partition, is_luks_cleartext, property. rewrite Hbag.
  destruct (DeviceIsPartition bag) eqn:Hp; [done|].
  destruct (DeviceIsLuksCleartext bag) eqn:Hc; [done|].
  split_and!; [done..|].
  unfold recursion_limit. rewrite drive_rec_step, Hbag.
  unfold container. by rewrite Hbag, Hp, Hc.
Qed.

Lemma drive_is_a_root_witness :
  let d := Sniffer_get TheSniffer "/dev/sdb" in
  is_valid Examples.live0 d = true ∧ is_partition Examples.live0 d = Ok false ∧
  is_luks_cleartext Examples.live0 d = Ok false ∧ drive Examples.live0 d = Ok d.
Proof.
  apply (drive_is_a_root Examples.live0 (Sniffer_get TheSniffer "/dev/sdb1")).
  vm_compute. reflexivity.
Defined.

(** X5: the depth [drive] is run with is enough: with any greater depth it
    gives the same result.  When it runs out of depth, the containers of the
    device go round in a circle and it runs out of any depth. *)
Theorem drive_depth_is_enough live self fuel :
  (recursion_limit live ≤ fuel)%nat →
  drive_rec live fuel self = drive live self.
Proof.
  intros Hfuel. unfold drive.
  destruct (drive_rec live (recursion_limit live) self) as [d|e] eqn:Hr.
  - rewrite <- Hr. apply drive_rec_more; [by rewrite Hr|done].
  - destruct e; try (rewrite <- Hr; apply drive_rec_more; [by rewrite Hr|done]).
    apply drive_rec_ancestor. apply ancestors_without_end.
    by apply drive_rec_ancestor.
Qed.

Lemma drive_depth_is_enough_witness :
  drive_rec Examples.live0 1000 (Sniffer_get TheSniffer "/dev/sdb1") =
  drive Examples.live0 (Sniffer_get TheSniffer "/dev/sdb1").
Proof. apply drive_depth_is_enough. vm_compute. lia. Defined.

(** ** How the state evolves under the signals *)

Section Evolves.

Variable R : relation Daemon.
Hypothesis HR : signal_stable R.

Lemma evolves_same {A} (m : M A) : (∀ self, (m self).2 = self) → evolves R m.
Proof.
  intros H self. rewrite H. apply (stable_preorder R HR).
Qed.

Lemma evolves_bind {A B} (m : M A) (k : A → M B) :
  evolves R m → (∀ a, evolves R (k a)) → evolves R (m ≫= k).
Proof.
  intros Hm Hk self. specialize (Hm self). unfold mbind, M_bind, bind.
  destruct (m self) as [[a|e] self']; simpl in *; [|done].
  pose proof (stable_preorder R HR). etrans; [exact Hm|apply Hk].
Qed.

Lemma evolves_ret {A} (a : A) : evolves R (ret a).
Proof. by apply evolves_same. Qed.

Lemma evolves_raise {A} e : evolves R (raise (A := A) e).
Proof. by apply evolves_same. Qed.

Lemma evolves_lift {A} (r : result A) : evolves R (lift r).
Proof. by apply evolves_same. Qed.

Lemma evolves_gets {A} (f : Daemon → A) : evolves R (gets f).
Proof. by apply evolves_same. Qed.

Lemma evolves_deref r : evolves R (deref r).
Proof. apply evolves_same. intros self. unfold deref. by destruct (heap self !! r). Qed.

Lemma evolves_deref_dev dev : evolves R (deref_dev dev).
Proof.
  destruct dev as [r|]; simpl; [|apply evolves_ret].
  apply evolves_bind; [apply evolves_deref|]. intros c. apply evolves_ret.
Qed.

Lemma evolves_alloc c : evolves R (alloc c).
Proof. intros self. apply (stable_alloc R HR). Qed.

Lemma evolves_emit event args : evolves R (emit event args).
Proof. intros self. apply (stable_publish R HR). Qed.

Variable normpath : string → string.
Variable live : LiveSource.

Lemma evolves_invalidate object_path :
  evolves R (_invalidate normpath live object_path).
Proof.
  unfold _invalidate. apply evolves_bind; [apply evolves_gets|]. intros devices.
  destruct (devices !! object_path); [|apply evolves_ret].
  apply evolves_bind; [apply evolves_deref|]. intros c.
  apply evolves_bind; [apply evolves_lift|]. intros y.
  apply evolves_bind; [apply evolves_alloc|]. intros r'.
  intros self. apply (stable_bind R HR).
Qed.

Lemma evolves_update object_path : evolves R (update normpath live object_path).
Proof.
  unfold update. apply evolves_bind; [apply evolves_gets|]. intros sniffer.
  apply evolves_bind; [apply evolves_lift|]. intros c.
  apply evolves_bind; [apply evolves_alloc|]. intros cached.
  apply evolves_bind; [apply evolves_lift|]. intros b.
  apply evolves_bind; [apply evolves_gets|]. intros devices.
  apply evolves_bind; [|intros ?; apply evolves_ret].
  destruct (b || bool_decide (devices !! object_path = None)).
  - intros self. apply (stable_bind R HR).
  - apply evolves_invalidate.
Qed.

Lemma evolves_on_device_changed old_state new_state :
  evolves R (_on_device_changed normpath live old_state new_state).
Proof.
  unfold _on_device_changed.
  apply evolves_bind; [apply evolves_deref_dev|]. intros old.
  apply evolves_bind; [apply evolves_deref_dev|]. intros new.
  apply evolves_bind; [apply evolves_lift|]. intros n.
  apply evolves_bind.
  { destruct (truthy live n); [|apply evolves_ret].
    apply evolves_bind; [apply evolves_lift|]. intros o. apply evolves_ret. }
  intros media_added.
  apply evolves_bind; [apply evolves_lift|]. intros o.
  apply evolves_bind.
  { destruct (truthy live o); [|apply evolves_ret].
    apply evolves_bind; [apply evolves_lift|]. intros n'. apply evolves_ret. }
  intros media_removed.
  apply evolves_bind.
  - destruct media_added; [apply evolves_emit|apply evolves_ret].
  - intros ?. destruct media_removed; [apply evolves_emit|apply evolves_ret].
Qed.

Lemma evolves_trigger event args : evolves R (trigger normpath live event args).
Proof.
  unfold trigger. apply evolves_bind; [|intros ?; apply evolves_emit].
  case_decide; [|apply evolves_ret].
  repeat match goal with
         | |- evolves _ (match ?x with _ => _ end) => destruct x
         end;
    try apply evolves_raise; apply evolves_on_device_changed.
Qed.

Lemma evolves_device_added object_path :
  evolves R (_device_added normpath live object_path).
Proof.
  unfold _device_added. apply evolves_bind; [apply evolves_update|].
  intros new_state. apply evolves_trigger.
Qed.

Lemma evolves_device_removed object_path :
  evolves R (_device_removed normpath live object_path).
Proof.
  unfold _device_removed. apply evolves_bind; [apply evolves_gets|].
  intros old_state. apply evolves_bind; [apply evolves_invalidate|].
  intros ?. apply evolves_trigger.
Qed.

Lemma evolves_device_changed object_path :
  evolves R (_device_changed normpath live object_path).
Proof.
  unfold _device_changed. apply evolves_bind; [apply evolves_gets|].
  intros old_state. apply evolves_bind; [apply evolves_update|].
  intros new_state. apply evolves_trigger.
Qed.

End Evolves.

Lemma grows_stable : signal_stable grows.
Proof.
  split.
  - split.
    + intros self. by split_and!.
    + intros s1 s2 s3 (H1 & H2 & H3) (H1' & H2' & H3').
      split_and!; by etrans.
  - intros self c. split_and!; [|done..]. simpl. by apply prefix_app_r.
  - intros self p r. split_and!; [done| |done]. simpl. set_solver.
  - intros self event args. split_and!; [done..|]. simpl. by apply prefix_app_r.
Qed.

Lemma same_jobs_and_errors_stable : signal_stable same_jobs_and_errors.
Proof.
  split; [split|..]; try by intros; split.
  intros s1 s2 s3 [H1 H2] [H1' H2']. split; congruence.
Qed.

Section Frames.

Variable normpath : string → string.
Variable live : LiveSource.

Lemma job_changed_same_registry self p in_progress kind u c pct :
  same_registry self
    (_device_job_changed normpath live p in_progress kind u c pct self).2.
Proof.
  destruct (_action_mapping !! effective_job_id self p in_progress kind)
    as [action|] eqn:Ha; [|by rewrite job_changed_unknown].
  destruct (action_has_stem _ _ Ha) as (stem & Hs & _).
  destruct in_progress.
  - by rewrite (job_changed_in_progress _ _ _ _ _ _ _ _ _ _ Ha Hs).
  - rewrite (job_changed_terminal _ _ _ _ _ _ _ _ _ _ Ha Hs).
    destruct (check_success _ _ _ _ _).1 as [[|]|e]; [| |done].
    + unfold del_job, mbind, M_bind, bind, gets. simpl.
      by destruct (_jobs self !! p).
    + by destruct (_errors self !! action).
Qed.

Lemma set_error_same_registry self device action message :
  same_registry self (set_error device action message self).2.
Proof.
  unfold set_error, mbind, M_bind, bind, gets, subscript.
  by destruct (_errors self !! action).
Qed.

Lemma job_changed_published self p in_progress kind u c pct :
  published self `prefix_of`
    published (_device_job_changed normpath live p in_progress kind u c pct self).2.
Proof.
  destruct (_action_mapping !! effective_job_id self p in_progress kind)
    as [action|] eqn:Ha; [|by rewrite job_changed_unknown].
  destruct (action_has_stem _ _ Ha) as (stem & Hs & _).
  destruct in_progress.
  - rewrite (job_changed_in_progress _ _ _ _ _ _ _ _ _ _ Ha Hs). simpl.
    by apply prefix_app_r.
  - rewrite (job_changed_terminal _ _ _ _ _ _ _ _ _ _ Ha Hs).
    destruct (check_success _ _ _ _ _).1 as [[|]|e]; [| |done].
    + unfold del_job, mbind, M_bind, bind, gets. simpl.
      destruct (_jobs self !! p); simpl; by apply prefix_app_r.
    + destruct (_errors self !! action); [|done]. simpl. by apply prefix_app_r.
Qed.

Lemma handle_grows c self : grows self (handle normpath live c self).2.
Proof.
  destruct c as [p|p|p|p in_progress kind by_user cancellable pct|device action message];
    simpl.
  - apply evolves_device_added, grows_stable.
  - apply evolves_device_removed, grows_stable.
  - apply evolves_device_changed, grows_stable.
  - destruct (job_changed_same_registry self p in_progress kind
                by_user cancellable pct) as [Hd Hh].
    split_and!; [by rewrite <- Hh|by rewrite <- Hd|apply job_changed_published].
  - destruct (set_error_same_registry self device action message) as [Hd Hh].
    split_and!; [by rewrite <- Hh|by rewrite <- Hd|].
    unfold set_error, mbind, M_bind, bind, gets, subscript.
    by destruct (_errors self !! action).
Qed.

End Frames.

(** X7: no signal and no call makes the registry forget an identifier: an
    identifier the registry knows before, it knows afterwards, whether the
    method returns or raises. *)
Theorem registry_never_forgets normpath live c self object_path :
  is_Some (get self object_path) →
  is_Some (get (handle normpath live c self).2 object_path).
Proof.
  intros Hp. destruct (handle_grows normpath live c self) as (_ & Hdom & _).
  unfold get in *. apply elem_of_dom. apply Hdom. by apply elem_of_dom.
Qed.

Lemma registry_never_forgets_witness :
  is_Some (get (handle id Examples.live2 (DeviceRemoved "/dev/sdb1")
                  Examples.daemon0).2 "/dev/sdb1").
Proof. apply registry_never_forgets. vm_compute. eauto. Defined.

(** X8: no signal and no call changes a cached device that exists: a
    reference held from before reads the same object afterwards.  The daemon
    only makes new objects. *)
Theorem snapshots_never_change normpath live call self r c :
  heap self !! r = Some c →
  heap (handle normpath live call self).2 !! r = Some c.
Proof.
  intros Hr. destruct (handle_grows normpath live call self) as ([h ->] & _ & _).
  by apply lookup_app_l_Some.
Qed.

Lemma snapshots_never_change_witness :
  ∃ c, heap Examples.daemon0 !! 0%nat = Some c ∧
       heap (handle id Examples.live1 (DeviceChanged "/dev/sdb1")
               Examples.daemon0).2 !! 0%nat = Some c.
Proof.
  destruct (heap Examples.daemon0 !! 0%nat) as [c|] eqn:Hc; [|by vm_compute in Hc].
  exists c. split; [done|]. by apply snapshots_never_change.
Defined.

(** X9: the signals for devices leave the jobs and the error slots as they
    are, and the signal for jobs and [set_error] leave the registry and its
    objects as they are. *)
Theorem signals_keep_to_their_part normpath live self object_path :
  same_jobs_and_errors self (_device_added normpath live object_path self).2 ∧
  same_jobs_and_errors self (_device_removed normpath live object_path self).2 ∧
  same_jobs_and_errors self (_device_changed normpath live object_path self).2 ∧
  (∀ in_progress job_id by_user cancellable percentage,
     same_registry self
       (_device_job_changed normpath live object_path in_progress job_id
          by_user cancellable percentage self).2) ∧
  (∀ action message,
     same_registry self (set_error object_path action message self).2).
Proof.
  split_and!.
  - apply evolves_device_added, same_jobs_and_errors_stable.
  - apply evolves_device_removed, same_jobs_and_errors_stable.
  - apply evolves_device_changed, same_jobs_and_errors_stable.
  - intros. apply job_changed_same_registry.
  - intros. apply set_error_same_registry.
Qed.

(** ** The construction of the daemon *)

Section Construction.

Variable normpath : string → string.
Variable live : LiveSource.

Lemma init_valid_slot device c :
  CachedDevice_init normpath live device = Ok c →
  instance_dict c !! "is_valid" = Some (PyBool (is_valid live device)).
Proof.
  unfold CachedDevice_init. destruct (cache_properties _ _ _); simpl; [|done].
  intros [= <-]. rewrite store_lookup. by rewrite decide_True.
Qed.

Lemma cache_all_spec items :
  ∀ self devices self',
  cache_all normpath live items self = (Ok devices, self') →
  _jobs self' = _jobs self ∧ _errors self' = _errors self ∧
  published self' = published self ∧ _devices self' = _devices self ∧
  heap self `prefix_of` heap self' ∧
  (∀ p, is_Some (devices !! p) ↔ p ∈ items.*1) ∧
  (∀ p r, devices !! p = Some r →
     ∃ device c, (p, device) ∈ items ∧
       CachedDevice_init normpath live device = Ok c ∧ heap self' !! r = Some c).
Proof.
  induction items as [|[p device] items IH]; intros self devices self' H.
  - simpl in H. injection H as <- <-.
    split_and!; try done; try (intros p r Hr; by rewrite lookup_empty in Hr).
    intros p. rewrite lookup_empty. split; [by intros [? ?]|].
    intros Hp. by apply elem_of_nil in Hp.
  - simpl in H. unfold mbind, M_bind, bind, lift, alloc in H.
    destruct (CachedDevice_init normpath live device) as [c|e] eqn:Hc; [|done].
    simpl in H.
    destruct (cache_all normpath live items (set_heap (λ h, h ++ [c]) self))
      as [[rest|e] self1] eqn:Hrest; [|done].
    injection H as <- <-.
    destruct (IH _ _ _ Hrest) as (Hj & He & Hp & Hd & Hh & Hdom & Hent).
    simpl in *. split_and!; try done.
    + etrans; [|exact Hh]. by apply prefix_app_r.
    + intros p'. rewrite lookup_insert_is_Some, elem_of_cons, Hdom.
      split; [intros [->|[_ H]]|intros [->|H]]; auto.
      destruct (decide (p = p')); auto.
    + intros p' r Hr. apply lookup_insert_Some in Hr as [[<- <-]|[Hne Hr]].
      * exists device, c. split_and!; [by left|done|].
        destruct Hh as [h ->]. rewrite <- app_assoc.
        rewrite lookup_app_r by done. by rewrite Nat.sub_diag.
      * destruct (Hent _ _ Hr) as (device' & c' & Hin & Hc' & Hr').
        exists device', c'. split_and!; [by right|done..].
Qed.

End Construction.

(** X10: the construction of the daemon, when it returns, has filled the
    registry with exactly the identifiers that the service enumerates and
    that have an object; each entry is the snapshot of its online device and
    is valid; no event is published, no job recorded, and the error slots
    are those of the six actions, each empty. *)
Theorem construction_caches_the_live_devices normpath live self :
  Daemon_init normpath live = (Ok tt, self) →
  (∀ p, is_Some (get self p) ↔
        p ∈ EnumerateDevices live ∧ is_Some (objects live !! p)) ∧
  (∀ p r, get self p = Some r →
     ∃ c, heap self !! r = Some c ∧
          CachedDevice_init normpath live (Sniffer_get TheSniffer p) = Ok c ∧
          instance_dict c !! "is_valid" = Some (PyBool true)) ∧
  _jobs self = ∅ ∧ _errors self = initial_errors ∧ published self = [].
Proof.
  unfold Daemon_init, _sync, mbind, M_bind, bind, gets, modify. simpl.
  set (online := list_to_map _ : gmap string OnlineDevice).
  set (self0 := Build_Daemon _ _ _ _ _ _).
  destruct (cache_all normpath live (map_to_list online) self0)
    as [[devices|e] self1] eqn:Hall; [|done].
  intros [= <-].
  destruct (cache_all_spec normpath live _ _ _ _ Hall)
    as (Hj & He & Hp & _ & _ & Hdom & Hent).
  assert (∀ p device, online !! p = Some device →
            device = Sniffer_get TheSniffer p ∧ p ∈ EnumerateDevices live ∧
            is_valid live device = true) as Honline.
  { intros p device H. apply elem_of_list_to_map_2 in H.
    apply elem_of_reverse, list_elem_of_fmap in H as (d & [= -> ->] & Hd).
    unfold Sniffer_iter, Sniffer_paths in Hd.
    apply list_elem_of_filter in Hd as [Hvalid Hd].
    apply list_elem_of_fmap in Hd as (p & -> & Hp'). done. }
  unfold get. simpl. split_and!; try done.
  - intros p. rewrite Hdom. split.
    + intros H. apply list_elem_of_fmap in H as ([p' device] & -> & H).
      apply elem_of_map_to_list in H.
      destruct (Honline _ _ H) as (-> & Hin & Hvalid). split; [done|].
      unfold is_valid, property in Hvalid. simpl in *.
      destruct (objects live !! p'); [eauto|done].
    + intros [Hin [bag Hbag]].
      destruct (online !! p) as [device|] eqn:Hp'.
      * apply list_elem_of_fmap. exists (p, device). split; [done|].
        by apply elem_of_map_to_list.
      * apply not_elem_of_list_to_map in Hp'. destruct Hp'.
        rewrite fmap_reverse, elem_of_reverse, <- list_fmap_compose.
        apply list_elem_of_fmap. exists (Sniffer_get TheSniffer p). split; [done|].
        apply list_elem_of_filter. split.
        -- unfold is_valid, property. simpl. by rewrite Hbag.
        -- apply list_elem_of_fmap. by exists p.
  - intros p r Hr. destruct (Hent _ _ Hr) as (device & c & Hin & Hc & Hheap).
    apply elem_of_map_to_list in Hin.
    destruct (Honline _ _ Hin) as (-> & _ & Hvalid).
    exists c. split_and!; [done..|].
    rewrite (init_valid_slot normpath live _ _ Hc). by rewrite Hvalid.
Qed.

Lemma construction_caches_the_live_devices_witness :
  (∀ p, is_Some (get Examples.daemon0 p) ↔
        p ∈ EnumerateDevices Examples.live0 ∧ is_Some (objects Examples.live0 !! p)) ∧
  (∀ p r, get Examples.daemon0 p = Some r →
     ∃ c, heap Examples.daemon0 !! r = Some c ∧
          CachedDevice_init id Examples.live0 (Sniffer_get TheSniffer p) = Ok c ∧
          instance_dict c !! "is_valid" = Some (PyBool true)) ∧
  _jobs Examples.daemon0 = ∅ ∧ _errors Examples.daemon0 = initial_errors ∧
  published Examples.daemon0 = [].
Proof.
  apply construction_caches_the_live_devices. vm_compute. reflexivity.
Defined.

(** ** Updates of the registry *)

Section Updates.

Variable normpath : string → string.
Variable live : LiveSource.

Lemma init_bool device c :
  CachedDevice_init normpath live device = Ok c →
  ∀ live', CachedDevice_bool normpath live' c = Ok (is_valid live device).
Proof.
  intros Hc live'. unfold CachedDevice_bool, CachedDevice_getattr.
  rewrite decide_False by apply is_valid_not_overloaded.
  by rewrite (init_valid_slot normpath live device c Hc).
Qed.

Lemma is_valid_object device :
  is_valid live device = true ↔ is_Some (objects live !! object_path device).
Proof.
  unfold is_valid, property. destruct (objects live !! object_path device); split;
    try done; eauto; by intros [? ?].
Qed.

Lemma is_valid_no_object device :
  objects live !! object_path device = None → is_valid live device = false.
Proof. unfold is_valid, property. by intros ->. Qed.

End Updates.

(** X11: [update] of an identifier that has an object on the service, when
    the snapshot can be made, binds the identifier to the new snapshot and
    returns it: [get] then gives the returned object, which is valid, and
    the other identifiers are bound as before. *)
Theorem update_caches_a_live_device normpath live self object_path c :
  is_Some (objects live !! object_path) →
  CachedDevice_init normpath live (Sniffer_get (_sniffer self) object_path) = Ok c →
  let out := update normpath live object_path self in
  let cached := length (heap self) in
  out.1 = Ok cached ∧ get out.2 object_path = Some cached ∧
  heap out.2 !! cached = Some c ∧
  instance_dict c !! "is_valid" = Some (PyBool true) ∧
  (∀ p, p ≠ object_path → get out.2 p = get self p).
Proof.
  intros Hobj Hc out cached. subst out cached.
  pose proof (init_bool normpath live _ _ Hc live) as Hbool.
  pose proof (init_valid_slot normpath live _ _ Hc) as Hslot.
  assert (is_valid live (Sniffer_get (_sniffer self) object_path) = true) as Hvalid
    by by apply is_valid_object.
  rewrite Hvalid in Hbool, Hslot.
  unfold update, mbind, M_bind, bind, gets, lift, alloc, modify.
  rewrite Hc. simpl. rewrite Hbool. simpl. unfold get. simpl.
  split_and!; [done| | |done|].
  - by rewrite lookup_insert_eq.
  - rewrite lookup_app_r by done. by rewrite Nat.sub_diag.
  - intros p Hp. by rewrite lookup_insert_ne.
Qed.

Lemma update_caches_a_live_device_witness :
  ∃ c, CachedDevice_init id Examples.live1
         (Sniffer_get (_sniffer Examples.daemon0) "/dev/sdb1") = Ok c ∧
  let out := update id Examples.live1 "/dev/sdb1" Examples.daemon0 in
  let cached := length (heap Examples.daemon0) in
  out.1 = Ok cached ∧ get out.2 "/dev/sdb1" = Some cached ∧
  heap out.2 !! cached = Some c ∧
  instance_dict c !! "is_valid" = Some (PyBool true) ∧
  (∀ p, p ≠ "/dev/sdb1" → get out.2 p = get Examples.daemon0 p).
Proof.
  destruct (CachedDevice_init id Examples.live1
              (Sniffer_get (_sniffer Examples.daemon0) "/dev/sdb1"))
    as [c|e] eqn:Hc; [|by vm_compute in Hc].
  exists c. split; [done|].
  apply update_caches_a_live_device; [|exact Hc].
  vm_compute. eauto.
Defined.

(** X12: [update] of an identifier the registry knows, when the service has
    no object for it any more, raises [RecursionError]: the new snapshot is
    made, invalid and with [None] for its properties, but it is neither
    bound nor returned, because [_invalidate] raises in [copy]; the registry
    holds the entry it held, and that entry is as it was. *)
Theorem update_of_a_vanished_device normpath live self object_path r old :
  objects live !! object_path = None →
  get self object_path = Some r →
  heap self !! r = Some old →
  let out := update normpath live object_path self in
  ∃ c, CachedDevice_init normpath live (Sniffer_get (_sniffer self) object_path) = Ok c ∧
       instance_dict c !! "is_valid" = Some (PyBool false) ∧
       out.1 = Raise RecursionError ∧
       out.2 = set_heap (λ h, h ++ [c]) self ∧
       get out.2 object_path = Some r ∧ heap out.2 !! r = Some old.
Proof.
  intros Hnone Hr Hold out. subst out.
  destruct (vanished_init normpath live
              (Sniffer_get (_sniffer self) object_path) Hnone) as (c & Hc & _).
  exists c. split; [done|].
  pose proof (init_bool normpath live _ _ Hc live) as Hbool.
  pose proof (init_valid_slot normpath live _ _ Hc) as Hslot.
  rewrite (is_valid_no_object live (Sniffer_get (_sniffer self) object_path) Hnone)
    in Hbool, Hslot.
  split; [done|].
  unfold get in Hr.
  assert (update normpath live object_path self =
            (Raise RecursionError, set_heap (λ h, h ++ [c]) self)) as ->.
  { unfold update, mbind, M_bind, bind, gets, lift, alloc, modify.
    rewrite Hc. simpl. rewrite Hbool. simpl. rewrite Hr. simpl.
    rewrite (invalidate_known normpath live _ object_path r old); [done|done|].
    simpl. by rewrite lookup_app_l by by eapply lookup_lt_Some. }
  simpl. unfold get. simpl. split_and!; [done|done|done|].
  by rewrite lookup_app_l by by eapply lookup_lt_Some.
Qed.

Lemma update_of_a_vanished_device_witness :
  ∃ old, heap Examples.daemon0 !! 0%nat = Some old ∧
  let live := Build_LiveSource [] ∅ in
  let out := update id live "/dev/sdb1" Examples.daemon0 in
  ∃ c, CachedDevice_init id live (Sniffer_get (_sniffer Examples.daemon0) "/dev/sdb1") = Ok c ∧
       instance_dict c !! "is_valid" = Some (PyBool false) ∧
       out.1 = Raise RecursionError ∧
       out.2 = set_heap (λ h, h ++ [c]) Examples.daemon0 ∧
       get out.2 "/dev/sdb1" = Some 0%nat ∧ heap out.2 !! 0%nat = Some old.
Proof.
  destruct (heap Examples.daemon0 !! 0%nat) as [old|] eqn:Hold; [|by vm_compute in Hold].
  exists old. split; [done|].
  apply update_of_a_vanished_device; [| |exact Hold]; vm_compute; reflexivity.
Defined.

(** X13: the signal that a known device was removed raises
    [RecursionError] in [_invalidate], before [device_removed] is published:
    no event is published and the daemon is as it was, so the registry holds
    the entry it held, with the validity it had. *)
Theorem device_removed_of_a_known_device normpath live self object_path r old :
  get self object_path = Some r →
  heap self !! r = Some old →
  _device_removed normpath live object_path self = (Raise RecursionError, self).
Proof.
  intros Hr Hold. unfold get in Hr.
  unfold _device_removed, mbind, M_bind, bind, gets.
  by rewrite (invalidate_known normpath live self object_path r old Hr Hold).
Qed.

Lemma device_removed_of_a_known_device_witness :
  ∃ old, heap Examples.daemon0 !! 0%nat = Some old ∧
  _device_removed id Examples.live0 "/dev/sdb1" Examples.daemon0 =
    (Raise RecursionError, Examples.daemon0).
Proof.
  destruct (heap Examples.daemon0 !! 0%nat) as [old|] eqn:Hold; [|by vm_compute in Hold].
  exists old. split; [done|].
  apply (device_removed_of_a_known_device id Examples.live0 Examples.daemon0
           "/dev/sdb1" 0 old); [|exact Hold].
  vm_compute. reflexivity.
Defined.

(** X14: the signal that a device was removed, for an identifier the
    registry does not know, is not an error: [device_removed] is published
    with [None] for the device and nothing else changes. *)
Theorem device_removed_of_an_unknown_device normpath live self object_path :
  get self object_path = None →
  _device_removed normpath live object_path self =
    (Ok tt, publish "device_removed" [ADev None] self).
Proof.
  intros Hr. unfold get in Hr.
  unfold _device_removed, mbind, M_bind, bind, gets.
  rewrite (invalidate_unknown normpath live self object_path Hr).
  rewrite trigger_plain by done. unfold get. by rewrite Hr.
Qed.

Lemma device_removed_of_an_unknown_device_witness :
  _device_removed id Examples.live0 "/dev/sdc" Examples.daemon0 =
    (Ok tt, publish "device_removed" [ADev None] Examples.daemon0).
Proof. apply device_removed_of_an_unknown_device. vm_compute. reflexivity. Defined.

(** ** Changes of a device *)

Lemma on_device_changed_known normpath live self ro rn old new vo vn :
  heap self !! ro = Some old → heap self !! rn = Some new →
  CachedDevice_getattr normpath live old "has_media" = Ok vo →
  CachedDevice_getattr normpath live new "has_media" = Ok vn →
  _on_device_changed normpath live (Some ro) (Some rn) self =
    (Ok tt,
     if truthy live vn && negb (truthy live vo)
     then publish "media_added" [ADev (Some rn)] self
     else if truthy live vo && negb (truthy live vn)
          then publish "media_removed" [ADev (Some rn)] self
          else self).
Proof.
  intros Hro Hrn Hvo Hvn.
  unfold _on_device_changed, deref_dev, mbind, M_bind, bind, deref, lift, ret.
  rewrite Hro, Hrn. simpl. rewrite Hvn, Hvo.
  destruct (truthy live vn), (truthy live vo); done.
Qed.

(** X15: the handler of [device_changed], on two cached devices that have a
    value for [has_media], publishes [media_added] when the new state has a
    medium and the old one has none, [media_removed] when the old state has
    one and the new one has none, and nothing otherwise; either event
    carries the new state, and never are both published. *)
Theorem media_events_follow_the_change normpath live self ro rn old new vo vn :
  heap self !! ro = Some old → heap self !! rn = Some new →
  CachedDevice_getattr normpath live old "has_media" = Ok vo →
  CachedDevice_getattr normpath live new "has_media" = Ok vn →
  _on_device_changed normpath live (Some ro) (Some rn) self =
    (Ok tt,
     if truthy live vn && negb (truthy live vo)
     then publish "media_added" [ADev (Some rn)] self
     else if truthy live vo && negb (truthy live vn)
          then publish "media_removed" [ADev (Some rn)] self
          else self).
Proof. apply on_device_changed_known. Qed.

Lemma media_events_follow_the_change_witness :
  ∃ old new,
    heap Examples.daemon0 !! 1%nat = Some old ∧
    heap (update id Examples.live2 "/dev/sdb" Examples.daemon0).2 !! 2%nat = Some new ∧
    _on_device_changed id Examples.live2 (Some 1%nat) (Some 2%nat)
      (update id Examples.live2 "/dev/sdb" Examples.daemon0).2 =
    (Ok tt,
     publish "media_removed" [ADev (Some 2%nat)]
       (update id Examples.live2 "/dev/sdb" Examples.daemon0).2).
Proof.
  destruct (heap Examples.daemon0 !! 1%nat) as [old|] eqn:Hold; [|by vm_compute in Hold].
  destruct (heap (update id Examples.live2 "/dev/sdb" Examples.daemon0).2 !! 2%nat)
    as [new|] eqn:Hnew; [|by vm_compute in Hnew].
  exists old, new. split_and!; [done..|].
  rewrite (media_events_follow_the_change id Examples.live2 _ 1%nat 2%nat old new
             (PyBool true) (PyBool false)).
  - done.
  - vm_compute in Hold. injection Hold as <-. vm_compute. reflexivity.
  - exact Hnew.
  - vm_compute in Hold. injection Hold as <-. vm_compute. reflexivity.
  - vm_compute in Hnew. injection Hnew as <-. vm_compute. reflexivity.
Defined.

Section DeviceChanged.

Variable normpath : string → string.
Variable live : LiveSource.

Lemma update_unknown self object_path c :
  _devices self !! object_path = None →
  CachedDevice_init normpath live (Sniffer_get (_sniffer self) object_path) = Ok c →
  update normpath live object_path self =
    (Ok (length (heap self)),
     set_devices <[object_path := length (heap self)]>
       (set_heap (λ h, h ++ [c]) self)).
Proof.
  intros Hr Hc.
  unfold update, mbind, M_bind, bind, gets, lift, alloc, modify.
  rewrite Hc. destruct (CachedDevice_bool normpath live c) as [b|e] eqn:Hb.
  - unfold set_heap at 1 2. simpl. rewrite Hr.
    rewrite bool_decide_true by done. by rewrite orb_true_r.
  - pose proof (init_bool normpath live _ _ Hc live) as Hbool. congruence.
Qed.

(** The handler of the daemon runs first; the event reaches the other
    subscribers when it has returned. *)
Lemma trigger_device_changed old_state new_state self :
  trigger normpath live "device_changed" [ADev old_state; ADev new_state] self =
    match _on_device_changed normpath live old_state new_state self with
    | (Ok _, self') =>
        (Ok tt, publish "device_changed" [ADev old_state; ADev new_state] self')
    | (Raise e, self') => (Raise e, self')
    end.
Proof.
  unfold trigger, emit, modify, mbind, M_bind, bind. rewrite decide_True by done.
  by destruct (_on_device_changed normpath live old_state new_state self) as [[[]|e] self'].
Qed.

Lemma on_device_changed_none self rn new v :
  heap self !! rn = Some new →
  CachedDevice_getattr normpath live new "has_media" = Ok v →
  _on_device_changed normpath live None (Some rn) self = (Raise AttributeError, self).
Proof.
  intros Hrn Hv.
  unfold _on_device_changed, deref_dev, mbind, M_bind, bind, deref, lift, ret.
  rewrite Hrn. simpl. rewrite Hv. by destruct (truthy live v).
Qed.

End DeviceChanged.

(** X16: the signal that a device has changed, for an identifier the
    registry does not know, binds the identifier to the new snapshot and
    then raises [AttributeError] in the handler of the daemon, which
    compares the media of the two states and has [None] as the old one.
    That handler is the first of [device_changed], so the event reaches no
    subscriber outside of the module: nothing is published. *)
Theorem device_changed_of_an_unknown_device normpath live self object_path c :
  get self object_path = None →
  CachedDevice_init normpath live (Sniffer_get (_sniffer self) object_path) = Ok c →
  let out := _device_changed normpath live object_path self in
  let cached := length (heap self) in
  out.1 = Raise AttributeError ∧
  get out.2 object_path = Some cached ∧
  heap out.2 !! cached = Some c ∧
  published out.2 = published self.
Proof.
  intros Hr Hc out cached. unfold get in Hr.
  destruct (snapshot_getattr normpath live c "has_media"
              (CachedDevice_init_snapshot _ _ _ _ Hc)) as (v & _ & Hv);
    [by_evaluation..|].
  assert (out =
          (Raise AttributeError,
           set_devices <[object_path := cached]>
             (set_heap (λ h, h ++ [c]) self))) as ->.
  { subst out cached. unfold _device_changed, mbind, M_bind, bind, gets.
    rewrite (update_unknown normpath live self object_path c Hr Hc).
    unfold get. rewrite Hr. rewrite trigger_device_changed.
    rewrite (on_device_changed_none normpath live _ (length (heap self)) c v);
      [done| |done].
    simpl. rewrite lookup_app_r by done. by rewrite Nat.sub_diag. }
  subst cached. unfold get. simpl. split_and!; [done| | |done].
  - by rewrite lookup_insert_eq.
  - rewrite lookup_app_r by done. by rewrite Nat.sub_diag.
Qed.

Lemma device_changed_of_an_unknown_device_witness :
  ∃ c, CachedDevice_init id Examples.live0
         (Sniffer_get (_sniffer Examples.daemon0) "/dev/sdc") = Ok c ∧
  let out := _device_changed id Examples.live0 "/dev/sdc" Examples.daemon0 in
  let cached := length (heap Examples.daemon0) in
  out.1 = Raise AttributeError ∧
  get out.2 "/dev/sdc" = Some cached ∧
  heap out.2 !! cached = Some c ∧
  published out.2 = published Examples.daemon0.
Proof.
  destruct (CachedDevice_init id Examples.live0
              (Sniffer_get (_sniffer Examples.daemon0) "/dev/sdc"))
    as [c|e] eqn:Hc; [|by vm_compute in Hc].
  exists c. split; [done|].
  apply device_changed_of_an_unknown_device; [|exact Hc].
  vm_compute. reflexivity.
Defined.

(** ** Jobs from start to end *)

(** X17: once the start of a job of a known kind is recorded for a device,
    the signal that a job of the device is over is judged by the recorded
    kind: the kind this signal carries has no part in what the handler
    does. *)
Theorem finished_job_is_judged_by_its_start normpath live self object_path job_id
    by_user cancellable percentage action :
  _action_mapping !! job_id = Some action →
  let started := (_device_job_changed normpath live object_path true job_id
                    by_user cancellable percentage self).2 in
  recorded_job_id started object_path = Some job_id ∧
  ∀ live' job_id' by_user' cancellable' percentage',
    _device_job_changed normpath live' object_path false job_id'
      by_user' cancellable' percentage' started =
    _device_job_changed normpath live' object_path false job_id
      by_user' cancellable' percentage' started.
Proof.
  intros Ha started.
  assert (effective_job_id self object_path true job_id = job_id) as Heff.
  { unfold effective_job_id. by destruct (recorded_job_id self object_path). }
  destruct (action_has_stem _ _ Ha) as (stem & Hs & _).
  assert (recorded_job_id started object_path = Some job_id) as Hrec.
  { subst started.
    rewrite (job_changed_in_progress normpath live self object_path job_id by_user
               cancellable percentage action stem) by (by rewrite ?Heff).
    unfold recorded_job_id. simpl. rewrite lookup_insert_eq. simpl. by rewrite Heff. }
  split; [done|]. intros live' job_id' by_user' cancellable' percentage'.
  unfold _device_job_changed, mbind, M_bind, bind, gets.
  unfold effective_job_id. by rewrite Hrec.
Qed.

Lemma finished_job_is_judged_by_its_start_witness :
  recorded_job_id Examples.mounting "/dev/sdb1" = Some "FilesystemMount" ∧
  ∀ live' job_id' by_user' cancellable' percentage',
    _device_job_changed id live' "/dev/sdb1" false job_id'
      by_user' cancellable' percentage' Examples.mounting =
    _device_job_changed id live' "/dev/sdb1" false "FilesystemMount"
      by_user' cancellable' percentage' Examples.mounting.
Proof.
  apply (finished_job_is_judged_by_its_start id Examples.live0 Examples.daemon0
           "/dev/sdb1" "FilesystemMount" false false 0 "mount").
  vm_compute. reflexivity.
Defined.

(** X18: when the job recorded for a device is over and has succeeded, the
    event of the success is published and the job is deleted; the error
    slots are left as they are, so a message kept for the device and the
    action is still there afterwards. *)
Theorem success_keeps_the_message normpath live self object_path kind
    by_user cancellable percentage recorded action :
  recorded_job_id self object_path = Some recorded →
  _action_mapping !! recorded = Some action →
  (check_success normpath live recorded (get self object_path) self).1 = Ok true →
  let out := _device_job_changed normpath live object_path false kind
               by_user cancellable percentage self in
  out.1 = Ok tt ∧
  _jobs out.2 = delete object_path (_jobs self) ∧
  _errors out.2 = _errors self ∧
  ∃ stem, _event_mapping !! action = Some stem ∧
    published out.2 =
      published self ++ [Build_Event (stem +:+ "ed") [ADev (get self object_path)]].
Proof.
  intros Hrec Ha Hcheck out. subst out.
  assert (effective_job_id self object_path false kind = recorded) as Heff.
  { unfold effective_job_id. by rewrite Hrec. }
  destruct (action_has_stem _ _ Ha) as (stem & Hs & _).
  rewrite (job_changed_terminal normpath live self object_path kind by_user
             cancellable percentage action stem) by (by rewrite ?Heff).
  rewrite Heff, Hcheck.
  unfold recorded_job_id in Hrec.
  destruct (_jobs self !! object_path) as [job|] eqn:Hjob; [|done].
  unfold del_job, mbind, M_bind, bind, gets, modify. simpl. rewrite Hjob. simpl.
  split_and!; [done..|]. by exists stem.
Qed.

Lemma success_keeps_the_message_witness :
  let self := (set_error "/dev/sdb1" "mount" "wrong fs type" Examples.mounting).2 in
  let out := _device_job_changed id Examples.live0 "/dev/sdb1" false ""
               false false 1 (update id Examples.live1 "/dev/sdb1" self).2 in
  out.1 = Ok tt ∧
  _jobs out.2 =
    delete "/dev/sdb1" (_jobs (update id Examples.live1 "/dev/sdb1" self).2) ∧
  _errors out.2 = _errors (update id Examples.live1 "/dev/sdb1" self).2 ∧
  ∃ stem, _event_mapping !! "mount" = Some stem ∧
    published out.2 =
      published (update id Examples.live1 "/dev/sdb1" self).2 ++
        [Build_Event (stem +:+ "ed")
           [ADev (get (update id Examples.live1 "/dev/sdb1" self).2 "/dev/sdb1")]].
Proof.
  apply (success_keeps_the_message id Examples.live0 _ "/dev/sdb1" "" false false 1
           "FilesystemMount" "mount"); vm_compute; reflexivity.
Defined.

(** ** Error messages *)

(** X19: in every state of a run, [set_error] with an action that is not one
    of the six raises [KeyError] and leaves the daemon as it was. *)
Theorem set_error_of_an_unknown_action normpath self device action message :
  reachable normpath self →
  action ∉ ["mount"; "unmount"; "unlock"; "lock"; "eject"; "detach"] →
  set_error device action message self = (Raise KeyError, self).
Proof.
  intros Hreach Haction.
  assert (_errors self !! action = None) as Hnone.
  { apply not_elem_of_dom. rewrite (wf_errors _ (reachable_wf _ _ Hreach)).
    unfold initial_errors. rewrite dom_list_to_map_L. simpl.
    intros Hin. apply Haction. set_solver. }
  unfold set_error, mbind, M_bind, bind, gets, subscript. by rewrite Hnone.
Qed.

Lemma set_error_of_an_unknown_action_witness :
  set_error "/dev/sdb1" "format" "no" Examples.daemon0 = (Raise KeyError, Examples.daemon0).
Proof.
  apply (set_error_of_an_unknown_action id).
  - apply daemon0_reachable.
  - by_evaluation.
Defined.

(** ** Devices in use *)

Section InUse.

Variable live : LiveSource.

Lemma in_use_rec_step fuel self :
  in_use_rec live (S fuel) self =
    (m ← is_mounted live self;
     u ← (if m : bool then mret true else online_bool live <$> is_unlocked live self);
     if u : bool then mret true else
     t ← is_partition_table live self;
     if t : bool
     then in_use_scan live (in_use_rec live fuel) self (Sniffer_iter live (udisks self))
     else mret false).
Proof.
  simpl. destruct (is_mounted live self) as [[|]|]; simpl; try done;
    destruct (online_bool live <$> is_unlocked live self) as [[|]|]; simpl; try done;
    destruct (is_partition_table live self) as [[|]|]; simpl; try done;
    induction (Sniffer_iter live (udisks self)) as [|d l IH]; simpl; try done;
    destruct (partition_slave live d) as [s|]; simpl; try done;
    destruct (device_eq s self); try done;
    destruct (in_use_rec live fuel d) as [[|]|]; simpl; done.
Qed.

Lemma in_use_scan_false rec self devices :
  in_use_scan live rec self devices = Ok false →
  ∀ device s, device ∈ devices → partition_slave live device = Ok s →
              device_eq s self = true → rec device = Ok false.
Proof.
  induction devices as [|d l IH]; intros H device s Hin Hs Heq.
  - by apply elem_of_nil in Hin.
  - simpl in H. destruct (partition_slave live d) as [s'|] eqn:Hs'; simpl in H; [|done].
    apply elem_of_cons in Hin as [->|Hin].
    + rewrite Hs in Hs'. injection Hs' as <-. rewrite Heq in H.
      destruct (rec d) as [[|]|]; simpl in H; done.
    + destruct (device_eq s' self).
      * destruct (rec d) as [[|]|]; simpl in H; try done. by eapply IH.
      * by eapply IH.
Qed.

End InUse.

(** X6: when [in_use] answers [False] for a device, the device is not
    mounted and has no valid cleartext holder, and, if it is a partition
    table, no valid device that the service enumerates and that has it as
    its partition slave is mounted. *)
Theorem not_in_use_is_sound live self :
  in_use live self = Ok false →
  is_mounted live self = Ok false ∧
  online_bool live <$> is_unlocked live self = Ok false ∧
  (is_partition_table live self = Ok true →
   ∀ device s, device ∈ Sniffer_iter live (udisks self) →
     partition_slave live device = Ok (Some s) →
     object_path s = object_path self →
     is_mounted live device = Ok false).
Proof.
  unfold in_use, recursion_limit. rewrite in_use_rec_step.
  destruct (is_mounted live self) as [[|]|]; simpl; try done.
  destruct (online_bool live <$> is_unlocked live self) as [[|]|]; simpl; try done.
  destruct (is_partition_table live self) as [[|]|]; simpl; try done.
  intros Hscan. split_and!; [done..|]. intros _ device s Hin Hs Hpath.
  assert (in_use_rec live (size (objects live)) device = Ok false) as Hrec.
  { eapply in_use_scan_false; [exact Hscan|exact Hin|exact Hs|].
    simpl. by apply bool_decide_eq_true. }
  destruct (size (objects live)) as [|n]; [done|].
  rewrite in_use_rec_step in Hrec.
  destruct (is_mounted live device) as [[|]|]; simpl in Hrec; done.
Qed.

Lemma not_in_use_is_sound_witness :
  let self := Sniffer_get TheSniffer "/dev/sdb" in
  is_mounted Examples.live0 self = Ok false ∧
  online_bool Examples.live0 <$> is_unlocked Examples.live0 self = Ok false ∧
  (is_partition_table Examples.live0 self = Ok true →
   ∀ device s, device ∈ Sniffer_iter Examples.live0 (udisks self) →
     partition_slave Examples.live0 device = Ok (Some s) →
     object_path s = object_path self →
     is_mounted Examples.live0 device = Ok false).
Proof. apply not_in_use_is_sound. vm_compute. reflexivity. Defined.

(** ** The arguments of a mount *)

Lemma filter_opt_flag (key : string) (v : option bool) :
  filter_opt [(key, v)] = from_option (λ _, [key]) [] v.
Proof. by destruct v. Qed.

(** X20: [mount] passes no empty option to the service, whatever commas the
    string of options has; without options it passes the flag alone, if it
    is given; the type it passes is the one given, or the [IdType] of the
    device when none or an empty one is given. *)
Theorem mount_passes_no_empty_option live self fstype options auth t opts :
  mount_arguments live self fstype options auth = Ok (t, opts) →
  (∀ o, o ∈ opts → o ≠ "") ∧
  (default "" options = "" →
   opts = from_option (λ _, ["auth_no_user_interaction"]) [] auth) ∧
  (∀ f, fstype = Some f → f ≠ "" → t = f) ∧
  (fstype = None ∨ fstype = Some "" → id_type live self = Ok t).
Proof.
  unfold mount_arguments. rewrite filter_opt_flag. intros H.
  assert ((match fstype with
           | Some f => if decide (f = "") then id_type live self else Ok f
           | None => id_type live self
           end = Ok t) ∧
          opts = filter (λ o, o ≠ "") (split_comma (default "" options)) ++
                 from_option (λ _, ["auth_no_user_interaction"]) [] auth) as [Ht ->].
  { destruct (match fstype with Some _ => _ | None => _ end) as [t'|]; simpl in H; [|done].
    by injection H as -> ->. }
  split_and!.
  - intros o Ho. apply elem_of_app in Ho as [Ho|Ho].
    + by apply list_elem_of_filter in Ho as [Ho _].
    + destruct auth; simpl in Ho; [|by apply elem_of_nil in Ho].
      apply list_elem_of_singleton in Ho as ->. done.
  - intros ->. done.
  - intros f -> Hf. rewrite decide_False in Ht by done. by injection Ht.
  - intros [->| ->]; [done|]. by rewrite decide_True in Ht.
Qed.

Lemma mount_passes_no_empty_option_witness :
  let opts := ["ro"; "noexec"; "auth_no_user_interaction"] in
  (∀ o, o ∈ opts → o ≠ "") ∧
  (default "" (Some ",ro,,noexec") = "" →
   opts = from_option (λ _, ["auth_no_user_interaction"]) [] (Some true)) ∧
  (∀ f, @None string = Some f → f ≠ "" → "ext4" = f) ∧
  (@None string = None ∨ @None string = Some "" →
   id_type Examples.live0 (Sniffer_get TheSniffer "/dev/sdb1") = Ok "ext4").
Proof.
  apply (mount_passes_no_empty_option Examples.live0
           (Sniffer_get TheSniffer "/dev/sdb1") None (Some ",ro,,noexec") (Some true)).
  vm_compute. reflexivity.
Defined.

(** ** The search for a device *)

Section FindProperties.

Variable normpath : string → string.
Variable live : LiveSource.
Variable samefile : string → string → bool.

Lemma iter_spec self :
  daemon_wf self →
  ∃ rs, iter normpath live self = (Ok rs, self) ∧
        ∀ r, r ∈ rs ↔ ∃ p, _devices self !! p = Some r ∧ valid_entry self r.
Proof.
  intros Hwf.
  destruct (paths_of_spec normpath live self (map_to_list (_devices self)) Hwf)
    as (ps & Hps & _ & Hin).
  { intros p r H. apply elem_of_map_to_list in H. by eapply wf_devices. }
  destruct (filter_none_spec normpath live self (get self <$> ps) Hwf)
    as (rs & Hrs & Hrin).
  { intros r H. apply list_elem_of_fmap in H as (p & Hp & _).
    symmetry in Hp. by eapply wf_devices. }
  exists rs. split.
  - unfold iter, paths. unfold mbind, M_bind, bind, gets. simpl. by rewrite Hps.
  - intros r. rewrite Hrin. split.
    + intros [H Hv]. apply list_elem_of_fmap in H as (p & Hp & _). eauto.
    + intros (p & Hp & Hv). split; [|done].
      apply list_elem_of_fmap. exists p. split; [done|]. apply Hin.
      exists r. split; [|done]. by apply elem_of_map_to_list.
Qed.

Lemma find_in_spec path devices self found self' :
  find_in normpath live samefile devices path self = (Ok found, self') →
  self' = self ∧
  match found with
  | Some r =>
      r ∈ devices ∧
      ∃ c, heap self !! r = Some c ∧ is_file normpath live samefile c path = Ok true
  | None =>
      ∀ r, r ∈ devices →
        ∃ c, heap self !! r = Some c ∧ is_file normpath live samefile c path = Ok false
  end.
Proof.
  revert found. induction devices as [|r devices IH]; intros found H.
  - simpl in H. injection H as <- <-. split; [done|].
    intros r Hr. by apply elem_of_nil in Hr.
  - simpl in H. unfold mbind, M_bind, bind, deref, lift in H.
    destruct (heap self !! r) as [c|] eqn:Hc; [|done].
    destruct (is_file normpath live samefile c path) as [[|]|e] eqn:Hfile; [| |done].
    + injection H as <- <-. split; [done|]. split; [by left|eauto].
    + destruct (IH _ H) as [-> Hfound]. split; [done|].
      destruct found as [r'|].
      * destruct Hfound as [Hin Hc']. split; [by right|done].
      * intros r' Hr'. apply elem_of_cons in Hr' as [->|Hr']; eauto.
Qed.

End FindProperties.

(** X21: in every state of a run, when [find] returns a device, it is a
    valid entry of the registry whose device file or one of whose mount
    paths is the same file as the path; when it returns [None], no valid
    entry of the registry is; the daemon is left as it was. *)
Theorem find_returns_a_valid_match normpath live samefile self path found self' :
  reachable normpath self →
  find normpath live samefile path self = (Ok found, self') →
  self' = self ∧
  match found with
  | Some r =>
      (∃ p, get self p = Some r) ∧ valid_entry self r ∧
      ∃ c, heap self !! r = Some c ∧ is_file normpath live samefile c path = Ok true
  | None =>
      ∀ p r, get self p = Some r → valid_entry self r →
        ∃ c, heap self !! r = Some c ∧ is_file normpath live samefile c path = Ok false
  end.
Proof.
  intros Hreach. pose proof (reachable_wf _ _ Hreach) as Hwf.
  destruct (iter_spec normpath live self Hwf) as (rs & Hiter & Hrs).
  unfold find, mbind, M_bind, bind. rewrite Hiter. intros H.
  destruct (find_in_spec normpath live samefile path rs self found self' H)
    as [-> Hfound].
  split; [done|]. destruct found as [r|].
  - destruct Hfound as [Hin Hc]. apply Hrs in Hin as (p & Hp & Hv).
    split_and!; [by exists p|done..].
  - intros p r Hp Hv. apply Hfound. apply Hrs. by exists p.
Qed.

Lemma find_returns_a_valid_match_witness :
  let self := (handle id Examples.live1 (DeviceAdded "/dev/sdb1") Examples.daemon0).2 in
  self = self ∧
  (∃ p, get self p = Some 2%nat) ∧ valid_entry self 2%nat ∧
  ∃ c, heap self !! 2%nat = Some c ∧
       is_file id Examples.live1 String.eqb c "/media/usb" = Ok true.
Proof.
  apply (find_returns_a_valid_match id Examples.live1 String.eqb
           (handle id Examples.live1 (DeviceAdded "/dev/sdb1") Examples.daemon0).2
           "/media/usb" (Some 2%nat)).
  - apply reachable_call. apply daemon0_reachable.
  - vm_compute. reflexivity.
Defined.

(** ** A change of a known device *)

Lemma update_live normpath live self object_path c :
  is_Some (objects live !! object_path) →
  CachedDevice_init normpath live (Sniffer_get (_sniffer self) object_path) = Ok c →
  update normpath live object_path self =
    (Ok (length (heap self)),
     set_devices <[object_path := length (heap self)]>
       (set_heap (λ h, h ++ [c]) self)).
Proof.
  intros Hobj Hc.
  pose proof (init_bool normpath live _ _ Hc live) as Hbool.
  assert (is_valid live (Sniffer_get (_sniffer self) object_path) = true) as Hvalid
    by by apply is_valid_object.
  rewrite Hvalid in Hbool.
  unfold update, mbind, M_bind, bind, gets, lift, alloc, modify.
  rewrite Hc. by rewrite Hbool.
Qed.

(** X22: the signal that a known device has changed, when the device has an
    object on the service, binds the identifier to the new snapshot.  The
    handler of the daemon is the first of [device_changed]: what is
    published is [media_added] or [media_removed] with the new snapshot
    when the presence of a medium differs between the old entry and the new
    snapshot, nothing otherwise, and after it [device_changed] with the old
    entry and the new snapshot. *)
Theorem device_changed_of_a_known_device normpath live self object_path ro old c vo vn :
  get self object_path = Some ro →
  heap self !! ro = Some old →
  is_Some (objects live !! object_path) →
  CachedDevice_init normpath live (Sniffer_get (_sniffer self) object_path) = Ok c →
  CachedDevice_getattr normpath live old "has_media" = Ok vo →
  CachedDevice_getattr normpath live c "has_media" = Ok vn →
  let out := _device_changed normpath live object_path self in
  let cached := length (heap self) in
  out.1 = Ok tt ∧ get out.2 object_path = Some cached ∧
  heap out.2 !! cached = Some c ∧
  published out.2 =
    published self ++
      (if truthy live vn && negb (truthy live vo)
       then [Build_Event "media_added" [ADev (Some cached)]]
       else if truthy live vo && negb (truthy live vn)
            then [Build_Event "media_removed" [ADev (Some cached)]]
            else []) ++
      [Build_Event "device_changed" [ADev (Some ro); ADev (Some cached)]].
Proof.
  intros Hro Hold Hobj Hc Hvo Hvn out cached.
  pose proof (lookup_lt_Some _ _ _ Hold) as Hlt.
  set (self1 := set_devices <[object_path := cached]>
                  (set_heap (λ h, h ++ [c]) self)).
  assert (out =
          (Ok tt,
           publish "device_changed" [ADev (Some ro); ADev (Some cached)]
             (if truthy live vn && negb (truthy live vo)
              then publish "media_added" [ADev (Some cached)] self1
              else if truthy live vo && negb (truthy live vn)
                   then publish "media_removed" [ADev (Some cached)] self1
                   else self1))) as ->.
  { subst out cached self1. unfold _device_changed, mbind, M_bind, bind, gets.
    rewrite (update_live normpath live self object_path c Hobj Hc).
    rewrite Hro. rewrite trigger_device_changed.
    rewrite (on_device_changed_known normpath live _ ro (length (heap self))
               old c vo vn); [done| | |done..].
    - simpl. by rewrite lookup_app_l.
    - simpl. rewrite lookup_app_r by done. by rewrite Nat.sub_diag. }
  subst self1 cached. unfold get.
  destruct (truthy live vn && negb (truthy live vo));
    [|destruct (truthy live vo && negb (truthy live vn))]; simpl;
    (split_and!;
     [ done
     | by rewrite lookup_insert_eq
     | rewrite lookup_app_r by done; by rewrite Nat.sub_diag
     | by rewrite <- ?app_assoc, ?app_nil_r ]).
Qed.

Lemma device_changed_of_a_known_device_witness :
  ∃ old c,
    heap Examples.daemon0 !! 1%nat = Some old ∧
    CachedDevice_init id Examples.live2
      (Sniffer_get (_sniffer Examples.daemon0) "/dev/sdb") = Ok c ∧
    let out := _device_changed id Examples.live2 "/dev/sdb" Examples.daemon0 in
    let cached := length (heap Examples.daemon0) in
    out.1 = Ok tt ∧ get out.2 "/dev/sdb" = Some cached ∧
    heap out.2 !! cached = Some c ∧
    published out.2 =
      published Examples.daemon0 ++
        (if truthy Examples.live2 (PyBool false) && negb (truthy Examples.live2 (PyBool true))
         then [Build_Event "media_added" [ADev (Some cached)]]
         else if truthy Examples.live2 (PyBool true) && negb (truthy Examples.live2 (PyBool false))
              then [Build_Event "media_removed" [ADev (Some cached)]]
              else []) ++
        [Build_Event "device_changed" [ADev (Some 1%nat); ADev (Some cached)]].
Proof.
  destruct (heap Examples.daemon0 !! 1%nat) as [old|] eqn:Hold; [|by vm_compute in Hold].
  destruct (CachedDevice_init id Examples.live2
              (Sniffer_get (_sniffer Examples.daemon0) "/dev/sdb"))
    as [c|e] eqn:Hc; [|by vm_compute in Hc].
  exists old, c. split_and!; [done..|].
  apply (device_changed_of_a_known_device id Examples.live2 Examples.daemon0
           "/dev/sdb" 1%nat old c (PyBool true) (PyBool false)).
  - vm_compute. reflexivity.
  - exact Hold.
  - vm_compute. eauto.
  - exact Hc.
  - vm_compute in Hold. injection Hold as <-. vm_compute. reflexivity.
  - vm_compute in Hc. injection Hc as <-. vm_compute. reflexivity.
Defined.

(** ** Unlocked devices *)

(** X23: on the snapshot of a LUKS device, [is_unlocked] and
    [luks_cleartext_holder] read the same online device, the one of the
    [LuksHolder] path the service had when the snapshot was made; the
    snapshot counts as unlocked exactly when that device is valid at the
    time of the question. *)
Theorem unlocked_is_the_holder normpath live device c bag :
  CachedDevice_init normpath live device = Ok c →
  objects live !! object_path device = Some bag →
  DeviceIsLuks bag = true →
  ∀ live',
    let holder := Sniffer_get (udisks device) (LuksHolder bag) in
    CachedDevice_getattr normpath live' c "is_unlocked" = Ok (PyOnline holder) ∧
    CachedDevice_getattr normpath live' c "luks_cleartext_holder" = Ok (PyOnline holder) ∧
    truthy live' (PyOnline holder) = is_valid live' holder.
Proof.
  intros Hc Hbag Hluks live' holder.
  destruct (init_content normpath live device c Hc) as (_ & Hdae & Hmem).
  assert (luks_cleartext_holder live device = Ok (Some holder)) as Hholder.
  { unfold luks_cleartext_holder, is_luks, property. rewrite Hbag. simpl.
    by rewrite Hluks. }
  split_and!; [| |done].
  - destruct (Hmem "is_unlocked" (λ self, of_opt_device (is_unlocked live self)))
      as (v & Hv & Hslot).
    { unfold OnlineDevice_properties. rewrite !elem_of_cons. tauto. }
    unfold of_opt_device, is_unlocked, is_luks, property in Hv.
    rewrite Hbag in Hv. simpl in Hv. rewrite Hluks, Hholder in Hv.
    simpl in Hv. injection Hv as <-.
    apply scalar_is_cached; [by_evaluation|].
    unfold slot_of, kept_value in Hslot.
    rewrite !decide_False in Hslot by by_evaluation. done.
  - destruct (Hmem "luks_cleartext_holder"
                (λ self, of_opt_device (luks_cleartext_holder live self)))
      as (v & Hv & Hslot).
    { unfold OnlineDevice_properties. rewrite !elem_of_cons. tauto. }
    unfold of_opt_device in Hv. rewrite Hholder in Hv. simpl in Hv. injection Hv as <-.
    rewrite relation_is_looked_up by by_evaluation.
    unfold slot_of, kept_value in Hslot.
    rewrite !decide_True in Hslot by by_evaluation.
    rewrite Hslot, Hdae. done.
Qed.

Lemma unlocked_is_the_holder_witness :
  ∃ c, CachedDevice_init id Examples.live3 (Sniffer_get TheSniffer "/dev/sdb2") = Ok c ∧
  ∀ live',
    let holder := Sniffer_get TheSniffer "/" in
    CachedDevice_getattr id live' c "is_unlocked" = Ok (PyOnline holder) ∧
    CachedDevice_getattr id live' c "luks_cleartext_holder" = Ok (PyOnline holder) ∧
    truthy live' (PyOnline holder) = is_valid live' holder.
Proof.
  destruct (CachedDevice_init id Examples.live3 (Sniffer_get TheSniffer "/dev/sdb2"))
    as [c|e] eqn:Hc; [|by vm_compute in Hc].
  exists c. split; [done|].
  apply (unlocked_is_the_holder id Examples.live3 (Sniffer_get TheSniffer "/dev/sdb2") c
           (Examples.as_luks "/" (Examples.with_slave "/dev/sdb" (Examples.bag "/dev/sdb2")))
           Hc).
  - vm_compute. reflexivity.
  - reflexivity.
Defined.

(** ** Devices that were removed *)

Lemma same_registry_stays_valid self self' :
  same_registry self self' → stays_valid self self'.
Proof.
  intros [Hd Hh] p r Hr Hv. exists r. unfold valid_entry. by rewrite <- Hd, <- Hh.
Qed.

Lemma publish_stays_valid self self' event args :
  stays_valid self self' → stays_valid self (publish event args self').
Proof. intros H p r Hr Hv. apply (H p r Hr Hv). Qed.

Section StaysValid.

Variable normpath : string → string.
Variable live : LiveSource.

Lemma on_device_changed_same_registry old_state new_state self :
  same_registry self (_on_device_changed normpath live old_state new_state self).2.
Proof.
  assert (∀ dev s, same_registry s (deref_dev dev s).2 ∧
                   ((deref_dev dev s).2 = s)) as Hderef.
  { intros [r|] s; [|done]. unfold deref_dev, mbind, M_bind, bind, deref.
    by destruct (heap s !! r). }
  unfold _on_device_changed, mbind, M_bind, bind, lift, ret, emit, modify.
  destruct (Hderef old_state self) as [_ Ho].
  destruct (deref_dev old_state self) as [[old|e] s1]; simpl in Ho; subst s1; [|done].
  destruct (Hderef new_state self) as [_ Hn].
  destruct (deref_dev new_state self) as [[new|e] s1]; simpl in Hn; subst s1; [|done].
  destruct (dev_getattr normpath live new "has_media") as [n|e]; [|done].
  destruct (dev_getattr normpath live old "has_media") as [o|e];
    destruct (truthy live n); simpl; try done;
    destruct (truthy live o); done.
Qed.

Lemma alloc_valid_entry self c r :
  valid_entry self r → valid_entry (set_heap (λ h, h ++ [c]) self) r.
Proof.
  intros (c0 & Hc0 & Hv). exists c0. split; [|done].
  simpl. rewrite lookup_app_l; [done|]. by eapply lookup_lt_Some.
Qed.

Lemma update_stays_valid object_path self :
  stays_valid self (update normpath live object_path self).2.
Proof.
  intros p r Hr Hv.
  unfold update, mbind, M_bind, bind, gets, lift, alloc, modify.
  destruct (CachedDevice_init normpath live _) as [c|e] eqn:Hc; [|by eauto].
  rewrite (init_bool normpath live _ _ Hc live).
  pose proof (init_valid_slot normpath live _ _ Hc) as Hslot.
  set (self1 := set_heap (λ h, h ++ [c]) self).
  assert (valid_entry self1 r) as Hv1 by by apply alloc_valid_entry.
  change (_devices self1) with (_devices self).
  destruct (is_valid live _ || bool_decide (_devices self !! object_path = None)) eqn:Hb.
  - simpl. destruct (decide (p = object_path)) as [->|Hne].
    + exists (length (heap self)). rewrite lookup_insert_eq. split; [done|].
      exists c. split.
      * unfold self1. simpl. rewrite lookup_app_r by done. by rewrite Nat.sub_diag.
      * rewrite Hslot. apply orb_true_iff in Hb as [->|Hb]; [done|].
        apply bool_decide_eq_true in Hb. congruence.
    + exists r. by rewrite lookup_insert_ne.
  - pose proof (invalidate_state normpath live self1 object_path) as Hs.
    destruct (_invalidate normpath live object_path self1) as [[[]|e] s];
      simpl in Hs; subst s; by exists r.
Qed.

Lemma handle_stays_valid c self :
  stays_valid self (handle normpath live c self).2.
Proof.
  destruct c as [p|p|p|p in_progress kind by_user cancellable pct|device action message];
    simpl.
  - unfold _device_added, mbind, M_bind, bind.
    pose proof (update_stays_valid p self) as Hu.
    destruct (update normpath live p self) as [[r|e] s]; [|done].
    rewrite trigger_plain by done. by apply publish_stays_valid.
  - unfold _device_removed, mbind, M_bind, bind, gets.
    pose proof (invalidate_state normpath live self p) as Hs.
    destruct (_invalidate normpath live p self) as [[[]|e] s]; simpl in Hs; subst s.
    + rewrite trigger_plain by done. apply publish_stays_valid.
      by apply same_registry_stays_valid.
    + by apply same_registry_stays_valid.
  - unfold _device_changed, mbind, M_bind, bind, gets.
    pose proof (update_stays_valid p self) as Hu.
    destruct (update normpath live p self) as [[r|e] s]; [|done].
    rewrite trigger_device_changed.
    pose proof (on_device_changed_same_registry (get self p) (Some r) s) as Hh.
    apply same_registry_stays_valid in Hh.
    destruct (_on_device_changed normpath live (get self p) (Some r) s) as [[[]|e] s'];
      simpl in *.
    + apply publish_stays_valid. intros q rq Hq Hvq.
      destruct (Hu q rq Hq Hvq) as (r1 & Hr1 & Hv1). eauto.
    + intros q rq Hq Hvq. destruct (Hu q rq Hq Hvq) as (r1 & Hr1 & Hv1). eauto.
  - apply same_registry_stays_valid, job_changed_same_registry.
  - apply same_registry_stays_valid, set_error_same_registry.
Qed.

End StaysValid.

(** X24: in every state of a run, an identifier that [paths] returns is
    still returned by [paths] after any further signal or call, the signal
    that the device was removed included: an entry that is valid is only
    ever replaced by a valid snapshot, since [_invalidate] raises before it
    stores the invalid copy. *)
Theorem iterated_device_stays_iterated normpath live live' c self ps object_path :
  reachable normpath self →
  paths normpath live' self = (Ok ps, self) →
  object_path ∈ ps →
  let self' := (handle normpath live c self).2 in
  ∃ ps', paths normpath live' self' = (Ok ps', self') ∧ object_path ∈ ps'.
Proof.
  intros Hreach Hps Hin self'.
  pose proof (reachable_wf _ _ Hreach) as Hwf.
  assert (daemon_wf self') as Hwf'.
  { apply (reachable_wf normpath). by apply (reachable_call normpath live c). }
  destruct (paths_of_spec normpath live' self (map_to_list (_devices self)) Hwf)
    as (ps0 & Hps0 & _ & Hin0).
  { intros p r H. apply elem_of_map_to_list in H. by eapply wf_devices. }
  unfold paths, mbind, M_bind, bind, gets in Hps. simpl in Hps.
  rewrite Hps0 in Hps. injection Hps as <-.
  apply Hin0 in Hin as (r & Hr & Hv). apply elem_of_map_to_list in Hr.
  destruct (handle_stays_valid normpath live c self object_path r Hr Hv)
    as (r' & Hr' & Hv').
  destruct (paths_of_spec normpath live' self' (map_to_list (_devices self')) Hwf')
    as (ps' & Hps' & _ & Hin').
  { intros p r0 H. apply elem_of_map_to_list in H. by eapply wf_devices. }
  exists ps'. split.
  - unfold paths, mbind, M_bind, bind, gets. done.
  - apply Hin'. exists r'. split; [|done]. by apply elem_of_map_to_list.
Qed.

Lemma iterated_device_stays_iterated_witness :
  let self' := (handle id (Build_LiveSource [] ∅) (DeviceRemoved "/dev/sdb1")
                  Examples.daemon0).2 in
  ∃ ps', paths id Examples.live0 self' = (Ok ps', self') ∧ "/dev/sdb1" ∈ ps'.
Proof.
  eapply (iterated_device_stays_iterated id (Build_LiveSource [] ∅) Examples.live0
            (DeviceRemoved "/dev/sdb1") Examples.daemon0).
  - apply daemon0_reachable.
  - vm_compute. reflexivity.
  - by_evaluation.
Defined.
